(** * ldap_hunter.py: a shallow embedding and its specification

    Python [str] values are lists of Unicode code points ([text]); bytes are
    integers in [0, 255].  The file system is a finite map from paths to nodes,
    the console is the list of what was printed, and the effects of the script
    (file access, printing, exceptions) run in a small state and exception
    monad.  The progress spinners of [rich.progress] only draw transient
    status lines and are not modelled. *)

From Stdlib Require Import ZArith Lia Ascii String Sorting.Sorted.
From stdpp Require Import base list gmap sets sorting.

Open Scope Z_scope.

(** ** Text *)

Abbreviation text := (list Z).

(** Literal text from an ASCII string. *)
Definition t (s : string) : text :=
  map (λ c, Z.of_nat (nat_of_ascii c)) (list_ascii_of_string s).

Definition in_range (lo hi c : Z) : bool := (lo <=? c) && (c <=? hi).

Definition text_eqb (a b : text) : bool := bool_decide (a = b).

(** [str.isspace] for one character: the Unicode White_Space characters as
    CPython classifies them. *)
Definition py_isspace (c : Z) : bool :=
  in_range 9 13 c || in_range 28 32 c || (c =? 0x85) || (c =? 0xA0)
  || (c =? 0x1680) || in_range 0x2000 0x200A c || (c =? 0x2028)
  || (c =? 0x2029) || (c =? 0x202F) || (c =? 0x205F) || (c =? 0x3000).

Fixpoint py_lstrip (s : text) : text :=
  match s with
  | [] => []
  | c :: r => if py_isspace c then py_lstrip r else s
  end.

(** [str.strip()] with no argument. *)
Definition py_strip (s : text) : text := rev (py_lstrip (rev (py_lstrip s))).

Fixpoint py_startswith (prefix s : text) : bool :=
  match prefix, s with
  | [], _ => true
  | p :: ps, c :: cs => (p =? c) && py_startswith ps cs
  | _ :: _, [] => false
  end.

(** [needle in hay] for two [str] values. *)
Fixpoint py_contains (needle hay : text) : bool :=
  py_startswith needle hay
  || match hay with
     | [] => false
     | _ :: r => py_contains needle r
     end.

Definition colon : Z := 58.
Definition hash_sign : Z := 35.
Definition newline : Z := 10.

(** [s.split(':', 1)[0]]: everything before the first colon. *)
Fixpoint split_colon_head (s : text) : text :=
  match s with
  | [] => []
  | c :: r => if c =? colon then [] else c :: split_colon_head r
  end.

(** [a < b] on [str]: lexicographic order on code points. *)
Fixpoint py_str_ltb (a b : text) : bool :=
  match a, b with
  | [], [] => false
  | [], _ :: _ => true
  | _ :: _, [] => false
  | x :: xs, y :: ys => (x <? y) || ((x =? y) && py_str_ltb xs ys)
  end.

Definition py_str_lt (a b : text) : Prop := py_str_ltb a b = true.
Definition py_str_le (a b : text) : Prop := a = b ∨ py_str_lt a b.

Global Instance py_str_le_dec : RelDecision py_str_le.
Proof. intros a b. unfold py_str_le, py_str_lt. apply _. Defined.

(** [sorted(xs)] on a list of [str]. *)
Definition py_sorted (xs : list text) : list text := merge_sort py_str_le xs.

(** [str(n)] for a non-negative integer. *)
Fixpoint dec_digits (fuel : nat) (n : Z) (acc : text) : text :=
  match fuel with
  | O => acc
  | S f =>
      let acc' := (48 + n mod 10) :: acc in
      if n <? 10 then acc' else dec_digits f (n / 10) acc'
  end.

Definition py_str_int (n : Z) : text := dec_digits (S (Z.to_nat (Z.log2 n))) n [].

(** ** Decoding and encoding *)

Definition cont_byte (b : Z) : bool := in_range 0x80 0xBF b.

(** The range of the second byte of a three-byte sequence led by [b0]. *)
Definition second_ok3 (b0 b1 : Z) : bool :=
  if b0 =? 0xE0 then in_range 0xA0 0xBF b1
  else if b0 =? 0xED then in_range 0x80 0x9F b1
  else cont_byte b1.

(** The range of the second byte of a four-byte sequence led by [b0]. *)
Definition second_ok4 (b0 b1 : Z) : bool :=
  if b0 =? 0xF0 then in_range 0x90 0xBF b1
  else if b0 =? 0xF4 then in_range 0x80 0x8F b1
  else cont_byte b1.

(** [bytes.decode('utf-8', errors='ignore')]: CPython's UTF-8 decoder drops
    each maximal invalid subpart (a lone invalid byte, or a valid prefix of a
    sequence cut short by an invalid byte or by the end of the data) and
    resumes at the first byte that does not belong to it. *)
Fixpoint utf8_decode_ignore (bs : list Z) : text :=
  match bs with
  | [] => []
  | b0 :: r0 =>
    if in_range 0 0x7F b0 then b0 :: utf8_decode_ignore r0
    else if in_range 0xC2 0xDF b0 then
      match r0 with
      | b1 :: r1 =>
        if cont_byte b1 then ((b0 - 0xC0) * 64 + (b1 - 0x80)) :: utf8_decode_ignore r1
        else utf8_decode_ignore r0
      | [] => []
      end
    else if in_range 0xE0 0xEF b0 then
      match r0 with
      | b1 :: r1 =>
        if second_ok3 b0 b1 then
          match r1 with
          | b2 :: r2 =>
            if cont_byte b2 then
              ((b0 - 0xE0) * 4096 + (b1 - 0x80) * 64 + (b2 - 0x80))
                :: utf8_decode_ignore r2
            else utf8_decode_ignore r1
          | [] => []
          end
        else utf8_decode_ignore r0
      | [] => []
      end
    else if in_range 0xF0 0xF4 b0 then
      match r0 with
      | b1 :: r1 =>
        if second_ok4 b0 b1 then
          match r1 with
          | b2 :: r2 =>
            if cont_byte b2 then
              match r2 with
              | b3 :: r3 =>
                if cont_byte b3 then
                  ((b0 - 0xF0) * 262144 + (b1 - 0x80) * 4096 + (b2 - 0x80) * 64
                   + (b3 - 0x80)) :: utf8_decode_ignore r3
                else utf8_decode_ignore r2
              | [] => []
              end
            else utf8_decode_ignore r1
          | [] => []
          end
        else utf8_decode_ignore r0
      | [] => []
      end
    else utf8_decode_ignore r0
  end.

(** [str.encode('utf-8')] of one code point; [None] is the
    [UnicodeEncodeError] raised on a lone surrogate. *)
Definition utf8_encode_cp (c : Z) : option (list Z) :=
  if in_range 0 0x7F c then Some [c]
  else if in_range 0x80 0x7FF c then Some [0xC0 + c / 64; 0x80 + c mod 64]
  else if in_range 0xD800 0xDFFF c then None
  else if in_range 0x800 0xFFFF c then
    Some [0xE0 + c / 4096; 0x80 + (c / 64) mod 64; 0x80 + c mod 64]
  else if in_range 0x10000 0x10FFFF c then
    Some [0xF0 + c / 262144; 0x80 + (c / 4096) mod 64;
          0x80 + (c / 64) mod 64; 0x80 + c mod 64]
  else None.

Fixpoint utf8_encode (s : text) : option (list Z) :=
  match s with
  | [] => Some []
  | c :: r =>
    match utf8_encode_cp c, utf8_encode r with
    | Some b, Some bs => Some (b ++ bs)
    | _, _ => None
    end
  end.

(** Universal newlines, the default of [open(..., 'r')]: ["\r\n"] and ["\r"]
    are read as ["\n"]. *)
Fixpoint translate_newlines (s : text) : text :=
  match s with
  | [] => []
  | c :: r =>
    if c =? 13 then
      match r with
      | c' :: r' =>
        if c' =? newline then newline :: translate_newlines r'
        else newline :: translate_newlines r
      | [] => [newline]
      end
    else c :: translate_newlines r
  end.

(** The lines a text file object yields: each ends with its ["\n"], except
    a last line without one. *)
Fixpoint split_lines_aux (s : text) (cur : text) : list text :=
  match s with
  | [] => match cur with [] => [] | _ => [rev cur] end
  | c :: r =>
    if c =? newline then rev (c :: cur) :: split_lines_aux r []
    else split_lines_aux r (c :: cur)
  end.

Definition split_lines (s : text) : list text := split_lines_aux s [].

(** ** The runtime the script relies on

    Functions of CPython and of [rich] whose definition is a large table or a
    separate parser.  Every result below holds for any implementation of
    them. *)
Class Runtime := {
  (** [str.lower()] (full Unicode case mapping) *)
  py_lower : text → text;
  (** [str.isprintable()] of one non-ASCII code point *)
  py_isprintable : Z → bool;
  (** [rich.style.Style.normalize] *)
  style_normalize : text → text;
  (** whether the parameters of a [rich] meta tag ([@name=...]) pass
      [RE_HANDLER] and [ast.literal_eval] *)
  meta_params_ok : text → bool
}.

(** ** [repr] of a [str] and the message of an exception *)

Definition hex_digit (d : Z) : Z := if d <? 10 then 48 + d else 87 + d.

Fixpoint hex_digits (n : nat) (c : Z) (acc : text) : text :=
  match n with
  | O => acc
  | S n' => hex_digits n' (c / 16) (hex_digit (c mod 16) :: acc)
  end.

Section Repr.
Context `{Runtime}.

Definition repr_char (quote c : Z) : text :=
  if (c =? quote) || (c =? 92) then [92; c]
  else if c =? 9 then [92; 116]
  else if c =? 10 then [92; 110]
  else if c =? 13 then [92; 114]
  else if (c <? 32) || (c =? 127) then 92 :: 120 :: hex_digits 2 c []
  else if c <? 127 then [c]
  else if py_isprintable c then [c]
  else if c <=? 0xFF then 92 :: 120 :: hex_digits 2 c []
  else if c <=? 0xFFFF then 92 :: 117 :: hex_digits 4 c []
  else 92 :: 85 :: hex_digits 8 c [].

(** [repr(s)]: single quotes, unless [s] has a single quote and no double
    quote. *)
Definition py_repr (s : text) : text :=
  let quote := if existsb (Z.eqb 39) s && negb (existsb (Z.eqb 34) s) then 34 else 39 in
  quote :: concat (map (repr_char quote) s) ++ [quote].

End Repr.

(** Exceptions the script can meet.  [OSError] carries the errno and the file
    name it was raised for ([FileNotFoundError], [PermissionError] and
    [IsADirectoryError] are its subclasses for errno 2, 13 and 21). *)
Inductive exn :=
| OSError (errno : Z) (filename : option text)
| MarkupError
| UnicodeEncodeError.

Definition ENOENT : Z := 2.
Definition EIO : Z := 5.
Definition EACCES : Z := 13.
Definition EISDIR : Z := 21.

Definition strerror (errno : Z) : text :=
  if errno =? ENOENT then t "No such file or directory"
  else if errno =? EIO then t "Input/output error"
  else if errno =? EACCES then t "Permission denied"
  else if errno =? EISDIR then t "Is a directory"
  else t "Unknown error " ++ py_str_int errno.

(** [str(e)].  Only [OSError]s are raised inside the [try] block of
    [extract_ldap_attributes], so the other two never reach a message. *)
Definition exc_str `{Runtime} (e : exn) : text :=
  match e with
  | OSError errno fname =>
    t "[Errno " ++ py_str_int errno ++ t "] " ++ strerror errno
      ++ match fname with Some f => t ": " ++ py_repr f | None => [] end
  | MarkupError => []
  | UnicodeEncodeError => []
  end.

(** ** Console markup of [rich]

    [Console.print] of a [str] (and a [Panel] of one) renders it with
    [rich.markup.render], which raises [MarkupError] on a closing tag that
    closes nothing or no open tag; that is the only way printing fails. *)

Record tag := Tag { tag_name : text; tag_parameters : option text }.

(** [tag_text.partition("=")] *)
Fixpoint partition_eq (s : text) : text * option text :=
  match s with
  | [] => ([], None)
  | c :: r =>
    if c =? 61 then ([], Some r)
    else let '(a, b) := partition_eq r in (c :: a, b)
  end.

Definition mk_tag (tag_text : text) : tag :=
  let '(name, params) := partition_eq tag_text in Tag name params.

(** The first character of a tag: [[a-z#/@]]. *)
Definition tag_first (c : Z) : bool :=
  in_range 97 122 c || (c =? 35) || (c =? 47) || (c =? 64).

(** The lazy [[^[]*?]] followed by ["]"]: the body and what follows ["]"]. *)
Fixpoint tag_body (s : text) : option (text * text) :=
  match s with
  | [] => None
  | c :: r =>
    if c =? 93 then Some ([], r)
    else if c =? 91 then None
    else match tag_body r with
         | Some (b, r') => Some (c :: b, r')
         | None => None
         end
  end.

Fixpoint backslash_run (s : text) : nat :=
  match s with
  | 92 :: r => S (backslash_run r)
  | _ => O
  end.

(** [RE_TAGS] matched at the start of [s]: a run of backslashes, ["["], one
    character of [[a-z#/@]], the shortest run without ["["] up to the next
    ["]"]; the number of backslashes, the tag text and the rest. *)
Definition match_tag (s : text) : option (nat * text * text) :=
  let k := backslash_run s in
  match drop k s with
  | 91 :: c :: r =>
    if tag_first c then
      match tag_body r with
      | Some (b, rest) => Some (k, c :: b, rest)
      | None => None
      end
    else None
  | _ => None
  end.

(** The tags [_parse] yields, in order: [RE_TAGS.finditer], where a match with
    an odd number of backslashes is an escaped tag and yields plain text. *)
Fixpoint markup_tags_aux (fuel : nat) (s : text) : list tag :=
  match fuel with
  | O => []
  | S fuel' =>
    match s with
    | [] => []
    | _ :: r =>
      match match_tag s with
      | Some (k, tag_text, rest) =>
        if Nat.odd k then markup_tags_aux fuel' rest
        else mk_tag tag_text :: markup_tags_aux fuel' rest
      | None => markup_tags_aux fuel' r
      end
    end
  end.

Definition markup_tags (s : text) : list tag := markup_tags_aux (length s) s.

Section Render.
Context `{Runtime}.

(** [pop_style]: remove the most recently opened tag of that name. *)
Fixpoint pop_style (name : text) (stack : list tag) : option (tag * list tag) :=
  match stack with
  | [] => None
  | tg :: st =>
    if text_eqb (tag_name tg) name then Some (tg, st)
    else match pop_style name st with
         | Some (tg', st') => Some (tg', tg :: st')
         | None => None
         end
  end.

(** Closing a meta tag evaluates its parameters. *)
Definition close_ok (open_tag : tag) : bool :=
  if py_startswith [64] (tag_name open_tag) then
    match tag_parameters open_tag with
    | Some (_ :: _ as p) => meta_params_ok p
    | _ => true
    end
  else true.

(** The loop of [rich.markup.render] over the tags; the stack top is the head. *)
Fixpoint render_tags (stack : list tag) (tags : list tag) : bool :=
  match tags with
  | [] => true
  | tg :: rest =>
    match tag_name tg with
    | 47 :: close =>
      let style_name := py_strip close in
      match style_name with
      | _ :: _ =>
        match pop_style (style_normalize style_name) stack with
        | Some (open_tag, stack') => close_ok open_tag && render_tags stack' rest
        | None => false
        end
      | [] =>
        match stack with
        | open_tag :: stack' => close_ok open_tag && render_tags stack' rest
        | [] => false
        end
      end
    | _ => render_tags (Tag (style_normalize (tag_name tg)) (tag_parameters tg) :: stack) rest
    end
  end.

(** [rich.markup.render(markup)] does not raise. *)
Definition render_ok (markup : text) : bool := render_tags [] (markup_tags markup).

End Render.

(** ** Files, console and the effect monad *)

(** A regular file: its bytes, its permissions for the running user, and
    [read_fault = Some n] for a file on a failing device whose reads raise
    [OSError(EIO)] once the text iterator has yielded [n] lines. *)
Record file := {
  data : list Z;
  can_read : bool;
  can_write : bool;
  read_fault : option nat
}.

Inductive node :=
| File (f : file)
| Directory.

(** What one [console.print] call printed: a markup string, or a [Panel]. *)
Inductive out :=
| Printed (markup : text)
| PanelOut (title : option text) (body : text).

Record World := {
  fs : gmap text node;
  console : list out
}.

Definition M (A : Type) : Type := World → (A + exn) * World.

Global Instance M_ret : MRet M := λ A x w, (inl x, w).
Global Instance M_bind : MBind M := λ A B k m w,
  match m w with
  | (inl x, w') => k x w'
  | (inr e, w') => (inr e, w')
  end.

Definition raise {A} (e : exn) : M A := λ w, (inr e, w).

(** [try: m except Exception as e: h(e)] *)
Definition try_except {A} (m : M A) (h : exn → M A) : M A := λ w,
  match m w with
  | (inr e, w') => h e w'
  | r => r
  end.

(** [for x in xs: body(x)] *)
Fixpoint for_each {A} (xs : list A) (body : A → M unit) : M unit :=
  match xs with
  | [] => mret tt
  | x :: r => body x ;; for_each r body
  end.

Definition emit (o : out) : World → World := λ w,
  {| fs := fs w; console := console w ++ [o] |}.

Definition set_node (p : text) (n : node) : World → World := λ w,
  {| fs := <[p := n]> (fs w); console := console w |}.

Section Script.
Context `{Runtime}.

(** [console.print(markup)] *)
Definition console_print (markup : text) : M unit := λ w,
  if render_ok markup then (inl tt, emit (Printed markup) w) else (inr MarkupError, w).

(** [console.print(Panel(body, title=title, ...))] *)
Definition console_print_panel (title : option text) (body : text) : M unit := λ w,
  if match title with Some ti => render_ok ti | None => true end && render_ok body
  then (inl tt, emit (PanelOut title body) w)
  else (inr MarkupError, w).

(** [Path(p).exists()] *)
Definition path_exists (p : text) : M bool := λ w,
  (inl (bool_decide (is_Some (fs w !! p))), w).

(** [open(p, 'r', encoding='utf-8', errors='ignore')] *)
Definition open_read (p : text) : M file := λ w,
  match fs w !! p with
  | None => (inr (OSError ENOENT (Some p)), w)
  | Some Directory => (inr (OSError EISDIR (Some p)), w)
  | Some (File f) =>
    if can_read f then (inl f, w) else (inr (OSError EACCES (Some p)), w)
  end.

(** The lines [for line in f] yields, all of them for a sound file. *)
Definition file_lines (f : file) : list text :=
  split_lines (translate_newlines (utf8_decode_ignore (data f))).

(** The lines the loop receives, and the error that ends it early. *)
Definition iterate_lines (f : file) : list text * option exn :=
  match read_fault f with
  | None => (file_lines f, None)
  | Some n => (take n (file_lines f), Some (OSError EIO None))
  end.

(** The body of [for line in f:] in [extract_ldap_attributes]. *)
Fixpoint scan_lines (lines : list text) (attributes : gset text) : gset text :=
  match lines with
  | [] => attributes
  | line :: rest =>
    if negb (py_contains [colon] line) || py_startswith [hash_sign] line
    then scan_lines rest attributes
    else
      let attr := py_strip (split_colon_head line) in
      scan_lines rest (match attr with [] => attributes | _ => {[ attr ]} ∪ attributes end)
  end.

Definition read_error_msg (e : exn) : text :=
  t "[bold red]Error reading file: " ++ exc_str e ++ t "[/]".

Definition extract_ldap_attributes (file_path : text) : M (gset text) :=
  try_except
    (f ← open_read file_path;
     let '(lines, err) := iterate_lines f in
     let attributes := scan_lines lines ∅ in
     match err with
     | Some e => raise e
     | None => mret attributes
     end)
    (λ e, console_print (read_error_msg e) ;; mret ∅).

Definition keywords : list text :=
  map t ["cascade"; "legacy"; "pwd"; "password"; "secret"; "cred";
         "hash"; "key"; "backup"; "admin"; "service"; "old"; "temp"]%string.

(** The loop of [find_interesting_attributes], over the set in its
    iteration order. *)
Fixpoint collect_interesting (attrs : list text) (interesting : list text) : list text :=
  match attrs with
  | [] => interesting
  | attr :: rest =>
    collect_interesting rest
      (if existsb (λ keyword, py_contains keyword (py_lower attr)) keywords
       then interesting ++ [attr] else interesting)
  end.

Definition find_interesting_attributes (attributes : gset text) : list text :=
  py_sorted (collect_interesting (elements attributes) []).

(** [open(p, 'w', encoding='utf-8')]: creates the file, or truncates it. *)
Definition open_write (p : text) : M unit := λ w,
  match fs w !! p with
  | None =>
    (inl tt, set_node p (File {| data := []; can_read := true; can_write := true;
                                 read_fault := None |}) w)
  | Some Directory => (inr (OSError EISDIR (Some p)), w)
  | Some (File f) =>
    if can_write f
    then (inl tt, set_node p (File {| data := []; can_read := can_read f;
                                      can_write := true; read_fault := read_fault f |}) w)
    else (inr (OSError EACCES (Some p)), w)
  end.

(** [f.write(s)] on the file opened at [p]: the text is encoded at once, and
    what was written before an encoding error is flushed when the [with]
    block closes the file.  On POSIX ["\n"] is written as it is. *)
Definition write_text (p : text) (s : text) : M unit := λ w,
  match utf8_encode s, fs w !! p with
  | Some bs, Some (File f) =>
    (inl tt, set_node p (File {| data := data f ++ bs; can_read := can_read f;
                                 can_write := can_write f; read_fault := read_fault f |}) w)
  | None, _ => (inr UnicodeEncodeError, w)
  | Some _, _ => (inl tt, w)
  end.

Definition save_raw_output (file_path : text) (attributes : gset text)
    (interesting : list text) : M unit :=
  open_write file_path ;;
  for_each (py_sorted (elements attributes)) (λ attr, write_text file_path (attr ++ [newline])).

(** The command line after [parse_args]: [args.file] and [args.output]. *)
Record Args := { arg_file : text; arg_output : option text }.

Definition box (c : Z) (n : nat) : text := repeat c n.

Definition banner : text :=
  let nl := [newline] in
  let ind := t "    " in
  nl ++ ind ++ [0x2554] ++ box 0x2550 38 ++ [0x2557]
  ++ nl ++ ind ++ [0x2551] ++ t "     LDAP Attribute Hunter v1.0       " ++ [0x2551]
  ++ nl ++ ind ++ [0x2551] ++ t "      [ The Silent Observer ]         " ++ [0x2551]
  ++ nl ++ ind ++ [0x255A] ++ box 0x2550 38 ++ [0x255D]
  ++ nl ++ ind.

Definition show_banner : M unit := console_print_panel None banner.

Definition not_found_msg (p : text) : text := t "[bold red]File not found:[/] " ++ p.

Definition stats_panel (n_attrs n_interesting : nat) (p : text) : text :=
  [newline] ++ t "    Total Attributes Found: " ++ py_str_int (Z.of_nat n_attrs)
  ++ [newline] ++ t "    Interesting Attributes: " ++ py_str_int (Z.of_nat n_interesting)
  ++ [newline] ++ t "    Analyzed File: " ++ p
  ++ [newline] ++ t "    ".

Definition interesting_msg (attr : text) : text :=
  t "[bold red]" ++ [0x25BA] ++ t "[/] [cyan]" ++ attr ++ t "[/]".

Definition saved_msg (p : text) : text :=
  [newline] ++ t "[green]Raw attributes list saved to:[/] " ++ p.

(** [if args.output:] is false for [None] and for the empty string. *)
Definition py_truthy (o : option text) : bool :=
  match o with Some (_ :: _) => true | _ => false end.

Definition main (args : Args) : M unit :=
  show_banner ;;
  ex ← path_exists (arg_file args);
  if negb ex then console_print (not_found_msg (arg_file args))
  else
    attributes ← extract_ldap_attributes (arg_file args);
    let interesting := find_interesting_attributes attributes in
    console_print ([newline] ++ t "[bold green]Analysis Complete![/]" ++ [newline]) ;;
    console_print_panel (Some (t "[bold cyan]Statistics"))
      (stats_panel (size attributes) (length interesting) (arg_file args)) ;;
    (match interesting with
     | [] => mret tt
     | _ :: _ =>
       console_print ([newline] ++ t "[bold yellow]Potentially Interesting Attributes:[/]") ;;
       for_each interesting (λ attr, console_print (interesting_msg attr))
     end) ;;
    match arg_output args with
    | Some p =>
      if py_truthy (Some p) then
        save_raw_output p attributes interesting ;; console_print (saved_msg p)
      else mret tt
    | None => mret tt
    end.

End Script.

(** A runtime to run concrete examples with: it lowercases ASCII letters
    only, takes every non-ASCII code point as printable, normalizes a style
    name by stripping and lowercasing it, and accepts every meta parameter.
    On ASCII text it agrees with CPython's [str.lower]. *)
Definition ascii_lower_cp (c : Z) : Z := if in_range 65 90 c then c + 32 else c.

Definition sample_runtime : Runtime := {|
  py_lower := map ascii_lower_cp;
  py_isprintable := λ _, true;
  style_normalize := λ s, map ascii_lower_cp (py_strip s);
  meta_params_ok := λ _, true
|}.

(** ** Specification predicates *)

(** A computation that leaves the file system as it found it. *)
Definition preserves_fs {A} (m : M A) : Prop := ∀ w, fs (snd (m w)) = fs w.

(** The dump of the spec's example, one line per entry. *)
Definition example_dump : list Z :=
  concat (map (λ l, t l ++ [newline])
    ["cn: John"; "userPassword: xyz"; "# comment"; "mail"; "legacyFlag: true"]%string).

Definition example_file : file :=
  {| data := example_dump; can_read := true; can_write := true; read_fault := None |}.

Definition example_world : World := {|
  fs := {[ t "dump.ldif" := File example_file ]};
  console := []
|}.

(** A dump whose one line has a ['#'] after a leading space. *)
Definition indented_line : text := t " # x: y" ++ [newline].

Definition indented_file : file :=
  {| data := indented_line; can_read := true; can_write := true; read_fault := None |}.

Definition indented_world : World := {|
  fs := {[ t "in.ldif" := File indented_file ]};
  console := []
|}.

(** A file system whose only entry is a directory named ["[/]"]. *)
Definition bracket_dir_world : World := {|
  fs := {[ t "[/]" := Directory ]};
  console := []
|}.

(** What the spec asks of the output file at a path: a file whose bytes are
    the UTF-8 encoding of the attributes of [attributes], each once, in
    increasing order, one per line, each line ended by ["\n"]. *)
Definition attribute_lines (attributes : gset text) (n : option node) : Prop :=
  ∃ f lines, n = Some (File f)
    ∧ utf8_encode (concat (map (λ a, a ++ [newline]) lines)) = Some (data f)
    ∧ StronglySorted py_str_lt lines
    ∧ (∀ a, a ∈ lines ↔ a ∈ attributes)
    ∧ Forall (λ a, newline ∉ a) lines.

(** A computation that only appends to the console. *)
Definition console_grows {A} (m : M A) : Prop :=
  ∀ w, ∃ outs, console (snd (m w)) = console w ++ outs.

(** A computation that leaves the entry at path [q] as it was. *)
Definition unchanged_at {A} (q : text) (m : M A) : Prop :=
  ∀ w, fs (snd (m w)) !! q = fs w !! q.

(** Two one-line dumps, and the file that holds the first followed by the
    second ([cat a.ldif b.ldif > ab.ldif]). *)
Definition part1_file : file :=
  {| data := t "cn: a" ++ [newline]; can_read := true; can_write := true; read_fault := None |}.

Definition part2_file : file :=
  {| data := t "mail: b" ++ [newline]; can_read := true; can_write := true; read_fault := None |}.

Definition joined_file : file :=
  {| data := data part1_file ++ data part2_file; can_read := true; can_write := true;
     read_fault := None |}.

Definition parts_world : World := {|
  fs := {[ t "a.ldif" := File part1_file; t "b.ldif" := File part2_file;
           t "ab.ldif" := File joined_file ]};
  console := []
|}.

(** The example dump on a device whose reads fail after two lines. *)
Definition faulty_file : file :=
  {| data := example_dump; can_read := true; can_write := true; read_fault := Some 2%nat |}.

Definition faulty_world : World := {|
  fs := {[ t "dump.ldif" := File faulty_file ]};
  console := []
|}.

(** ** Lemmas on text *)

Lemma py_startswith_spec (k s : text) :
  py_startswith k s = true ↔ ∃ post, s = k ++ post.
Proof.
  revert s; induction k as [|c k IH]; intros s; simpl.
  - split; [eauto | done].
  - destruct s as [|d s].
    + split; [done | intros [post Hp]; discriminate].
    + rewrite andb_true_iff, Z.eqb_eq, IH. split.
      * intros [-> [post ->]]. eauto.
      * intros [post Hp]. injection Hp as -> ->. eauto.
Qed.

Lemma py_contains_spec (k s : text) :
  py_contains k s = true ↔ ∃ pre post, s = pre ++ k ++ post.
Proof.
  induction s as [|c s IH]; simpl.
  - rewrite orb_false_r, py_startswith_spec. split.
    + intros [post Hp]. exists [], post. done.
    + intros [pre [post Hp]]. destruct pre; [|discriminate]. eauto.
  - rewrite orb_true_iff, py_startswith_spec, IH. split.
    + intros [[post Hp]|[pre [post Hp]]].
      * exists [], post. done.
      * exists (c :: pre), post. rewrite Hp. done.
    + intros [pre [post Hp]]. destruct pre as [|d pre].
      * left. eauto.
      * right. injection Hp as -> Hp. eauto.
Qed.

Lemma py_contains_single (c : Z) (s : text) :
  py_contains [c] s = true ↔ c ∈ s.
Proof.
  rewrite py_contains_spec. split.
  - intros [pre [post ->]]. set_solver.
  - intros Hin. apply list_elem_of_split in Hin as (pre & post & ->). eauto.
Qed.

Lemma py_startswith_single (c : Z) (s : text) :
  py_startswith [c] s = false ↔ head s ≠ Some c.
Proof.
  destruct s as [|d s]; simpl; [done|].
  rewrite andb_true_r. destruct (Z.eqb_spec c d); subst; split; congruence.
Qed.

Lemma split_colon_head_app (pre post : text) :
  colon ∉ pre → split_colon_head (pre ++ colon :: post) = pre.
Proof.
  induction pre as [|c pre IH]; intros Hn; simpl.
  - by rewrite ?Z.eqb_refl.
  - rewrite elem_of_cons in Hn.
    destruct (Z.eqb_spec c colon); [subst; tauto|].
    rewrite IH; [done|tauto].
Qed.

Lemma split_first (c : Z) (s : text) :
  c ∈ s → ∃ pre post, s = pre ++ c :: post ∧ c ∉ pre.
Proof.
  induction s as [|d s IH]; intros Hin; [set_solver|].
  destruct (Z.eq_dec c d) as [-> | Hne].
  - exists [], s. split; [done|set_solver].
  - rewrite elem_of_cons in Hin. destruct Hin as [Hin|Hin]; [done|].
    destruct (IH Hin) as (pre & post & -> & Hn).
    exists (d :: pre), post. split; [done|set_solver].
Qed.

(** What the loop of [extract_ldap_attributes] collects. *)
Lemma scan_lines_spec (lines : list text) (acc : gset text) (a : text) :
  a ∈ scan_lines lines acc ↔
  a ∈ acc ∨ ∃ line, line ∈ lines ∧ py_contains [colon] line = true
     ∧ py_startswith [hash_sign] line = false
     ∧ a = py_strip (split_colon_head line) ∧ a ≠ [].
Proof.
  revert acc; induction lines as [|line lines IH]; intros acc; cbn [scan_lines].
  - split; [tauto|]. intros [H|(l & Hl & _)]; [done|set_solver].
  - destruct (py_contains [colon] line) eqn:Hc, (py_startswith [hash_sign] line) eqn:Hh;
      cbn [negb orb]; rewrite IH.
    + split; [intros [H|(l & ? & ?)]; [by left|right; exists l; set_solver]|].
      intros [H|(l & Hl & Hl1 & Hl2 & Hl3)]; [by left|].
      rewrite elem_of_cons in Hl. destruct Hl as [-> | Hl]; [congruence|].
      right; exists l; auto.
    + destruct (py_strip (split_colon_head line)) as [|x xs] eqn:Hs.
      * split; [intros [H|(l & ? & ?)]; [by left|right; exists l; set_solver]|].
        intros [H|(l & Hl & Hl1 & Hl2 & Hl3 & Hl4)]; [by left|].
        rewrite elem_of_cons in Hl. destruct Hl as [-> | Hl]; [congruence|].
        right; exists l; auto.
      * rewrite elem_of_union, elem_of_singleton. split.
        -- intros [[->|H]|(l & ? & ?)].
           ++ right. exists line. rewrite Hs. set_solver.
           ++ by left.
           ++ right. exists l. set_solver.
        -- intros [H|(l & Hl & Hl1 & Hl2 & Hl3 & Hl4)]; [by left; right|].
           rewrite elem_of_cons in Hl. destruct Hl as [-> | Hl].
           ++ left; left. congruence.
           ++ right; exists l; auto.
    + split; [intros [H|(l & ? & ?)]; [by left|right; exists l; set_solver]|].
      intros [H|(l & Hl & Hl1 & Hl2 & Hl3)]; [by left|].
      rewrite elem_of_cons in Hl. destruct Hl as [-> | Hl]; [congruence|].
      right; exists l; auto.
    + split; [intros [H|(l & ? & ?)]; [by left|right; exists l; set_solver]|].
      intros [H|(l & Hl & Hl1 & Hl2 & Hl3)]; [by left|].
      rewrite elem_of_cons in Hl. destruct Hl as [-> | Hl]; [congruence|].
      right; exists l; auto.
Qed.

Lemma py_lstrip_spaces (ws s : text) :
  Forall (λ c, py_isspace c = true) ws → py_lstrip (ws ++ s) = py_lstrip s.
Proof. induction 1 as [|c ws Hc _ IH]; simpl; [done|]. by rewrite Hc. Qed.

Lemma py_lstrip_keeps (s : text) (c : Z) :
  c ∈ s → py_isspace c = false → c ∈ py_lstrip s.
Proof.
  induction s as [|d s IH]; intros Hin Hc; simpl; [set_solver|].
  destruct (py_isspace d) eqn:Hd; [|done].
  rewrite elem_of_cons in Hin. destruct Hin as [-> | Hin]; [congruence|auto].
Qed.

Lemma elem_of_rev (c : Z) (s : text) : c ∈ rev s ↔ c ∈ s.
Proof. rewrite !list_elem_of_In. symmetry. apply in_rev. Qed.

Lemma py_strip_keeps (s : text) (c : Z) :
  c ∈ s → py_isspace c = false → c ∈ py_strip s.
Proof.
  intros Hin Hc. unfold py_strip. rewrite elem_of_rev.
  apply py_lstrip_keeps; [|done]. rewrite elem_of_rev.
  by apply py_lstrip_keeps.
Qed.

Lemma split_colon_head_prefix (pre s : text) :
  colon ∉ pre → split_colon_head (pre ++ s) = pre ++ split_colon_head s.
Proof.
  induction pre as [|c pre IH]; intros Hn; simpl; [done|].
  rewrite elem_of_cons in Hn.
  destruct (Z.eqb_spec c colon); [subst; tauto|]. rewrite IH; [done|tauto].
Qed.

Lemma py_str_ltb_irrefl (a : text) : py_str_ltb a a = false.
Proof. induction a as [|x xs IH]; simpl; [done|]. by rewrite Z.ltb_irrefl, Z.eqb_refl, IH. Qed.

Lemma py_str_ltb_trans (a b c : text) :
  py_str_ltb a b = true → py_str_ltb b c = true → py_str_ltb a c = true.
Proof.
  revert b c; induction a as [|x xs IH]; intros [|y ys] [|z zs] H1 H2;
    simpl in *; try discriminate; try reflexivity.
  rewrite orb_true_iff, andb_true_iff, Z.ltb_lt, Z.eqb_eq in *.
  destruct H1 as [H1|[-> H1]], H2 as [H2|[-> H2]].
  - left. lia.
  - left. lia.
  - left. lia.
  - right. split; [done|]. eauto.
Qed.

Lemma py_str_ltb_total (a b : text) :
  a = b ∨ py_str_ltb a b = true ∨ py_str_ltb b a = true.
Proof.
  revert b; induction a as [|x xs IH]; intros [|y ys]; simpl; auto.
  rewrite !orb_true_iff, !andb_true_iff, !Z.ltb_lt, !Z.eqb_eq.
  destruct (Z.lt_trichotomy x y) as [Hxy|[->|Hxy]]; [auto| |auto].
  destruct (IH ys) as [->|[Hl|Hl]]; auto.
Qed.

Lemma py_str_le_trans : Transitive py_str_le.
Proof.
  intros a b c [->|Hab] [->|Hbc]; unfold py_str_le, py_str_lt in *; auto.
  right. eauto using py_str_ltb_trans.
Qed.

Lemma py_str_le_total : Total py_str_le.
Proof.
  intros a b. unfold py_str_le, py_str_lt.
  destruct (py_str_ltb_total a b) as [->|[Hl|Hl]]; auto.
Qed.

Lemma strongly_sorted_strict (l : list text) :
  StronglySorted py_str_le l → NoDup l → StronglySorted py_str_lt l.
Proof.
  induction 1 as [|x l Hs IH Hf]; intros Hnd; constructor.
  - apply IH. by apply NoDup_cons in Hnd as [_ ?].
  - apply NoDup_cons in Hnd as [Hnin _].
    rewrite Forall_forall in Hf |- *. intros y Hy.
    destruct (Hf y Hy) as [->|Hlt]; [done|done].
Qed.

Lemma existsb_elem_of {A} (f : A → bool) (l : list A) :
  existsb f l = true ↔ ∃ x, x ∈ l ∧ f x = true.
Proof. rewrite existsb_exists. by setoid_rewrite list_elem_of_In. Qed.

(** ** Lemmas on decoding, lines and encoding *)

Lemma valid_of_range (c : Z) :
  (0 ≤ c ≤ 0x7F) ∨ (0x80 ≤ c ≤ 0x7FF) ∨ (0x800 ≤ c ≤ 0xD7FF) ∨ (0xE000 ≤ c ≤ 0xFFFF)
  ∨ (0x10000 ≤ c ≤ 0x10FFFF) →
  is_Some (utf8_encode_cp c).
Proof.
  intros Hc. unfold utf8_encode_cp, in_range.
  repeat match goal with |- context [Z.leb ?a ?b] => destruct (Z.leb_spec a b) end;
    simpl; first [eexists; reflexivity | exfalso; lia].
Qed.

Ltac bool_arith :=
  repeat match goal with
  | H : in_range _ _ _ = true |- _ =>
    unfold in_range in H; apply andb_true_iff in H as [?%Z.leb_le ?%Z.leb_le]
  | H : in_range _ _ _ = false |- _ =>
    unfold in_range in H; apply andb_false_iff in H as [?%Z.leb_gt | ?%Z.leb_gt]
  | H : cont_byte _ = _ |- _ => unfold cont_byte in H
  | H : second_ok3 _ _ = _ |- _ => unfold second_ok3 in H
  | H : second_ok4 _ _ = _ |- _ => unfold second_ok4 in H
  | H : context [if ?b then _ else _] |- _ => destruct b eqn:?
  | H : (_ =? _) = true |- _ => apply Z.eqb_eq in H
  | H : (_ =? _) = false |- _ => apply Z.eqb_neq in H
  end.

(** The decoder only yields code points that UTF-8 can encode: no surrogate. *)
Lemma utf8_decode_valid (bs : list Z) :
  Forall (λ c, is_Some (utf8_encode_cp c)) (utf8_decode_ignore bs).
Proof.
  remember (length bs) as n eqn:Hn. assert (Hle : (length bs ≤ n)%nat) by lia.
  clear Hn. revert bs Hle. induction n as [|n IH]; intros bs Hle.
  { destruct bs; [constructor|simpl in Hle; lia]. }
  destruct bs as [|b0 r0]; [constructor|]. simpl in Hle. simpl.
  repeat match goal with
  | |- context [if ?b then _ else _] => destruct b eqn:?
  | |- context [match ?l with [] => _ | _ :: _ => _ end] => destruct l
  end;
  bool_arith; subst;
  first
    [ apply List.Forall_nil
    | apply List.Forall_cons; [apply valid_of_range; lia|apply IH; simpl in *; lia]
    | apply IH; simpl in *; lia ].
Qed.

Lemma translate_newlines_chars (s : text) (c : Z) :
  c ∈ translate_newlines s → c ∈ s ∨ c = newline.
Proof.
  remember (length s) as n eqn:Hn. assert (Hle : (length s ≤ n)%nat) by lia.
  clear Hn. revert s Hle. induction n as [|n IH]; intros s Hle.
  { destruct s; [simpl; set_solver|simpl in Hle; lia]. }
  destruct s as [|d r]; [simpl; set_solver|]. simpl in Hle. simpl.
  destruct (d =? 13) eqn:Hd.
  - destruct r as [|d' r'].
    + set_solver.
    + destruct (d' =? newline).
      * rewrite elem_of_cons. intros [-> | Hin]; [by right|].
        destruct (IH r') as [?|?]; [simpl in *; lia|done|set_solver|by right].
      * rewrite elem_of_cons. intros [-> | Hin]; [by right|].
        destruct (IH (d' :: r')) as [?|?]; [simpl in *; lia|done|set_solver|by right].
  - rewrite elem_of_cons. intros [-> | Hin]; [set_solver|].
    destruct (IH r) as [?|?]; [lia|done|set_solver|by right].
Qed.

Lemma split_lines_aux_spec (s cur line : text) :
  newline ∉ cur → line ∈ split_lines_aux s cur →
  (∀ c, c ∈ line → c ∈ s ∨ c ∈ cur)
  ∧ ∃ body, (line = body ∨ line = body ++ [newline]) ∧ newline ∉ body.
Proof.
  revert cur; induction s as [|c r IH]; intros cur Hcur Hl; cbn [split_lines_aux] in Hl.
  - destruct cur as [|x xs]; [set_solver|].
    apply list_elem_of_singleton in Hl as ->. split.
    + intros c Hc. right. by rewrite elem_of_rev in Hc.
    + exists (rev (x :: xs)). split; [by left|]. by rewrite elem_of_rev.
  - destruct (Z.eqb_spec c newline) as [-> | Hne].
    + rewrite elem_of_cons in Hl. destruct Hl as [-> | Hl].
      * split.
        -- intros c Hc. simpl in Hc. apply elem_of_app in Hc as [Hc|Hc].
           ++ right. by rewrite elem_of_rev in Hc.
           ++ left. set_solver.
        -- exists (rev cur). split; [by right|]. by rewrite elem_of_rev.
      * destruct (IH [] ltac:(set_solver) Hl) as [Hch Hb]. split; [|done].
        intros c Hc. destruct (Hch c Hc); set_solver.
    + destruct (IH (c :: cur) ltac:(set_solver) Hl) as [Hch Hb]. split; [|done].
      intros d Hd. destruct (Hch d Hd) as [?|Hin]; [set_solver|].
      rewrite elem_of_cons in Hin. set_solver.
Qed.

(** A line of a file: its characters are encodable, and a ["\n"] can only end
    it. *)
Lemma file_lines_spec (f : file) (line : text) :
  line ∈ file_lines f →
  Forall (λ c, is_Some (utf8_encode_cp c)) line
  ∧ ∃ body, (line = body ∨ line = body ++ [newline]) ∧ newline ∉ body.
Proof.
  intros Hl. unfold file_lines, split_lines in Hl.
  destruct (split_lines_aux_spec _ _ _ (not_elem_of_nil _) Hl) as [Hch Hb].
  split; [|done]. apply Forall_forall. intros c Hc.
  destruct (Hch c Hc) as [Hin|Hin]; [|set_solver].
  apply translate_newlines_chars in Hin as [Hin | ->].
  - pose proof (utf8_decode_valid (data f)) as Hv. rewrite Forall_forall in Hv. auto.
  - apply valid_of_range. unfold newline. lia.
Qed.

Lemma py_lstrip_subset (s : text) (c : Z) : c ∈ py_lstrip s → c ∈ s.
Proof.
  induction s as [|d s IH]; simpl; [done|].
  destruct (py_isspace d); [set_solver|done].
Qed.

Lemma py_strip_subset (s : text) (c : Z) : c ∈ py_strip s → c ∈ s.
Proof.
  unfold py_strip. rewrite elem_of_rev. intros Hc.
  apply py_lstrip_subset in Hc. rewrite elem_of_rev in Hc. by apply py_lstrip_subset.
Qed.

Lemma utf8_encode_app (a b : text) :
  utf8_encode (a ++ b) =
  match utf8_encode a, utf8_encode b with
  | Some x, Some y => Some (x ++ y)
  | _, _ => None
  end.
Proof.
  induction a as [|c a IH]; simpl.
  - by destruct (utf8_encode b).
  - rewrite IH. destruct (utf8_encode_cp c), (utf8_encode a), (utf8_encode b); try done.
    by rewrite app_assoc.
Qed.

Lemma utf8_encode_is_Some (s : text) :
  Forall (λ c, is_Some (utf8_encode_cp c)) s → is_Some (utf8_encode s).
Proof.
  induction 1 as [|c s [x Hx] _ [y Hy]]; simpl; [by eexists|].
  rewrite Hx, Hy. by eexists.
Qed.

(** Every attribute read from a file can be written back as one line. *)
Lemma scan_lines_writable (f : file) (a : text) :
  a ∈ scan_lines (file_lines f) ∅ →
  (newline ∉ a) ∧ Forall (λ c, is_Some (utf8_encode_cp c)) a.
Proof.
  rewrite scan_lines_spec. intros [Ha|(line & Hl & Hc & _ & -> & _)]; [set_solver|].
  destruct (file_lines_spec f line Hl) as [Hv (body & Hbody & Hnb)].
  apply py_contains_single in Hc.
  assert (Hcb : colon ∈ body).
  { destruct Hbody as [->| ->]; [done|]. apply elem_of_app in Hc as [?|?]; [done|].
    set_solver. }
  destruct (split_first _ _ Hcb) as (pre & post & -> & Hn).
  assert (Hhead : split_colon_head line = pre).
  { destruct Hbody as [->| ->]; [by apply split_colon_head_app|].
    rewrite <- app_assoc. simpl. by apply split_colon_head_app. }
  rewrite Hhead. split.
  - intros Hin. apply py_strip_subset in Hin. apply Hnb. set_solver.
  - apply Forall_forall. intros c Hin. apply py_strip_subset in Hin.
    rewrite Forall_forall in Hv. apply Hv. destruct Hbody as [->| ->]; set_solver.
Qed.

Section Proofs.
Context `{Runtime}.

Lemma extract_readable (p : text) (f : file) (w : World) :
  fs w !! p = Some (File f) → can_read f = true → read_fault f = None →
  extract_ldap_attributes p w = (inl (scan_lines (file_lines f) ∅), w).
Proof.
  intros Hp Hr Hf.
  unfold extract_ldap_attributes, try_except, mbind, M_bind, open_read.
  rewrite Hp, Hr. unfold iterate_lines. by rewrite Hf.
Qed.

Lemma extract_fs_only (p : text) (w1 w2 : World) :
  fs w1 = fs w2 →
  fst (extract_ldap_attributes p w1) = fst (extract_ldap_attributes p w2).
Proof.
  intros Hfs.
  unfold extract_ldap_attributes, try_except, mbind, M_bind, open_read,
    raise, mret, M_ret, console_print.
  rewrite Hfs. destruct (fs w2 !! p) as [[f|]|]; simpl.
  - destruct (can_read f); simpl.
    + destruct (iterate_lines f) as [lines [e|]]; simpl; [|done].
      by destruct (render_ok _).
    + by destruct (render_ok _).
  - by destruct (render_ok _).
  - by destruct (render_ok _).
Qed.

Lemma extract_preserves_fs (p : text) : preserves_fs (extract_ldap_attributes p).
Proof.
  intros w.
  unfold extract_ldap_attributes, try_except, mbind, M_bind, open_read,
    raise, mret, M_ret, console_print.
  destruct (fs w !! p) as [[f|]|]; simpl.
  - destruct (can_read f); simpl.
    + destruct (iterate_lines f) as [lines [e|]]; simpl; [|done].
      by destruct (render_ok _).
    + by destruct (render_ok _).
  - by destruct (render_ok _).
  - by destruct (render_ok _).
Qed.

(** C1: on a readable file, [extract_ldap_attributes] returns exactly the
    distinct, stripped, non-empty texts before the first colon of the lines
    that contain a colon and do not start with ['#']; no other line
    contributes. *)
Theorem extract_ldap_attributes_exact (p : text) (f : file) (w : World) :
  fs w !! p = Some (File f) → can_read f = true → read_fault f = None →
  ∃ attributes, extract_ldap_attributes p w = (inl attributes, w) ∧
  ∀ a, a ∈ attributes ↔
    ∃ line pre post, line ∈ file_lines f ∧ (line = pre ++ colon :: post) ∧ (colon ∉ pre)
      ∧ head line ≠ Some hash_sign ∧ a = py_strip pre ∧ a ≠ [].
Proof.
  intros Hp Hr Hf. eexists; split; [by apply extract_readable|].
  intros a. rewrite scan_lines_spec. split.
  - intros [Ha|(line & Hl & Hc & Hh & -> & Hne)]; [set_solver|].
    apply py_contains_single in Hc.
    destruct (split_first _ _ Hc) as (pre & post & -> & Hn).
    exists (pre ++ colon :: post), pre, post.
    rewrite split_colon_head_app in Hne |- * by done.
    rewrite <- py_startswith_single. auto 10.
  - intros (line & pre & post & Hl & -> & Hn & Hh & -> & Hne). right.
    exists (pre ++ colon :: post).
    rewrite split_colon_head_app, py_startswith_single, py_contains_single by done.
    split_and!; auto. set_solver.
Qed.

(** C6: the comment test looks at the raw line, so a line whose ['#'] follows
    leading whitespace is not a comment: when it has a colon, its stripped
    prefix before the first colon is collected. *)
Theorem extract_ldap_attributes_indented_hash (p : text) (f : file) (w : World)
    (line ws rest : text) :
  fs w !! p = Some (File f) → can_read f = true → read_fault f = None →
  line ∈ file_lines f → line = ws ++ hash_sign :: rest → ws ≠ [] →
  Forall (λ c, py_isspace c = true) ws → colon ∈ line →
  ∃ attributes, extract_ldap_attributes p w = (inl attributes, w) ∧
    py_strip (split_colon_head line) ∈ attributes.
Proof.
  intros Hp Hr Hf Hl Hline Hws Hsp Hc. eexists; split; [by apply extract_readable|].
  apply scan_lines_spec. right. exists line. split_and!; [done| |  |done|].
  - by apply py_contains_single.
  - apply py_startswith_single. subst line.
    destruct ws as [|c ws]; [done|]. simpl. inversion Hsp as [|? ? Hc0]; subst.
    intros [= ->]. discriminate.
  - assert (Hnc : colon ∉ ws).
    { intros Hin. rewrite Forall_forall in Hsp. specialize (Hsp _ Hin). discriminate. }
    assert (Hh : hash_sign ∈ split_colon_head line).
    { subst line. rewrite split_colon_head_prefix by done. simpl. set_solver. }
    intros Hnil. pose proof (py_strip_keeps _ _ Hh eq_refl) as Hk.
    rewrite Hnil in Hk. set_solver.
Qed.

(** C7: two extractions of the same unmodified file, one after the other,
    give the same result. *)
Theorem extract_ldap_attributes_repeat (p : text) (w : World) :
  fst (extract_ldap_attributes p (snd (extract_ldap_attributes p w)))
  = fst (extract_ldap_attributes p w).
Proof. apply extract_fs_only, extract_preserves_fs. Qed.


Lemma forallb_ascii (s : text) :
  forallb (in_range 0 127) s = true → Forall (λ c, 0 ≤ c ≤ 127) s.
Proof.
  induction s as [|c s IH]; simpl; [constructor|].
  unfold in_range at 1. rewrite !andb_true_iff, Z.leb_le, Z.leb_le.
  intros [[? ?] Hs]. constructor; [lia|auto].
Qed.

Lemma collect_interesting_filter (l acc : list text) :
  collect_interesting l acc
  = acc ++ filter (λ a, existsb (λ keyword, py_contains keyword (py_lower a)) keywords = true) l.
Proof.
  revert acc; induction l as [|a l IH]; intros acc; cbn [collect_interesting].
  - by rewrite filter_nil, app_nil_r.
  - rewrite IH. destruct (existsb (λ keyword, py_contains keyword (py_lower a)) keywords) eqn:E.
    + rewrite filter_cons_True by done. rewrite <- app_assoc. done.
    + rewrite filter_cons_False by congruence. done.
Qed.

(** C2: [find_interesting_attributes] returns, without repetition and in
    strictly increasing [str] order, exactly the attributes of the set whose
    lowercase form contains one of the thirteen keywords. *)
Theorem find_interesting_attributes_spec (attributes : gset text) :
  let r := find_interesting_attributes attributes in
  (∀ a, a ∈ r → a ∈ attributes) ∧ NoDup r ∧ StronglySorted py_str_lt r ∧
  ∀ a, a ∈ r ↔ a ∈ attributes ∧
    ∃ k, k ∈ map t ["cascade"; "legacy"; "pwd"; "password"; "secret"; "cred";
                    "hash"; "key"; "backup"; "admin"; "service"; "old"; "temp"]%string
      ∧ ∃ pre post, py_lower a = pre ++ k ++ post.
Proof.
  intros r.
  assert (Hperm : r ≡ₚ filter (λ a, existsb (λ keyword, py_contains keyword (py_lower a))
                                      keywords = true) (elements attributes)).
  { unfold r, find_interesting_attributes, py_sorted.
    rewrite merge_sort_Permutation, collect_interesting_filter. done. }
  assert (Hnd : NoDup r).
  { rewrite Hperm. apply NoDup_filter, NoDup_elements. }
  assert (Hmem : ∀ a, a ∈ r ↔ a ∈ attributes ∧
    ∃ k, k ∈ keywords ∧ ∃ pre post, py_lower a = pre ++ k ++ post).
  { intros a. rewrite Hperm, list_elem_of_filter, elem_of_elements, existsb_elem_of.
    setoid_rewrite py_contains_spec. tauto. }
  split_and!.
  - intros a Ha. by apply Hmem.
  - done.
  - apply strongly_sorted_strict; [|done].
    unfold r, find_interesting_attributes, py_sorted.
    apply StronglySorted_merge_sort; [apply py_str_le_trans|apply py_str_le_total].
  - exact Hmem.
Qed.

Lemma preserves_bind {A B} (m : M A) (k : A → M B) :
  preserves_fs m → (∀ x, preserves_fs (k x)) → preserves_fs (m ≫= k).
Proof.
  intros Hm Hk w. unfold mbind, M_bind. specialize (Hm w).
  destruct (m w) as [[x|e] w'] eqn:E; simpl in *; [by rewrite Hk|done].
Qed.

Lemma preserves_ret {A} (x : A) : preserves_fs (mret x).
Proof. done. Qed.

Lemma preserves_print (s : text) : preserves_fs (console_print s).
Proof. intros w. unfold console_print. by destruct (render_ok s). Qed.

Lemma preserves_panel (ti : option text) (b : text) :
  preserves_fs (console_print_panel ti b).
Proof. intros w. unfold console_print_panel. by destruct (_ && _). Qed.

Lemma preserves_exists (p : text) : preserves_fs (path_exists p).
Proof. done. Qed.

Lemma preserves_for_each {A} (l : list A) (body : A → M unit) :
  (∀ x, preserves_fs (body x)) → preserves_fs (for_each l body).
Proof.
  intros Hb. induction l as [|x l IH]; simpl; [apply preserves_ret|].
  apply preserves_bind; auto.
Qed.

Lemma bind_run {A B} (m : M A) (k : A → M B) (w : World) :
  (m ≫= k) w = match m w with (inl x, w') => k x w' | (inr e, w') => (inr e, w') end.
Proof. reflexivity. Qed.

(** What [extract_ldap_attributes] returns: the attributes of the whole file,
    or the empty set of its error path. *)
Lemma extract_result (p : text) (w w' : World) (attributes : gset text) :
  extract_ldap_attributes p w = (inl attributes, w') →
  attributes = ∅ ∨ ∃ f, fs w !! p = Some (File f) ∧ attributes = scan_lines (file_lines f) ∅.
Proof.
  unfold extract_ldap_attributes, try_except, mbind, M_bind, open_read,
    raise, mret, M_ret, console_print.
  destruct (fs w !! p) as [[f|]|] eqn:Hp; simpl.
  - destruct (can_read f); simpl.
    + destruct (iterate_lines f) as [lines [e|]] eqn:Hi; simpl.
      * destruct (render_ok _); intros [=]; auto.
      * unfold iterate_lines in Hi. destruct (read_fault f); [done|].
        intros [= <- _]. right. exists f. split; [done|]. congruence.
    + destruct (render_ok _); intros [=]; auto.
  - destruct (render_ok _); intros [=]; auto.
  - destruct (render_ok _); intros [=]; auto.
Qed.

Lemma extract_writable (p : text) (w w' : World) (attributes : gset text) :
  extract_ldap_attributes p w = (inl attributes, w') →
  ∀ a, a ∈ attributes → (newline ∉ a) ∧ Forall (λ c, is_Some (utf8_encode_cp c)) a.
Proof.
  intros E a Ha. destruct (extract_result _ _ _ _ E) as [->|(f & _ & ->)]; [set_solver|].
  by apply (scan_lines_writable f).
Qed.

Lemma write_text_ok (p s : text) (bs : list Z) (f : file) (w : World) :
  utf8_encode s = Some bs → fs w !! p = Some (File f) →
  write_text p s w =
  (inl tt, set_node p (File {| data := data f ++ bs; can_read := can_read f;
                               can_write := can_write f; read_fault := read_fault f |}) w).
Proof. intros Hs Hp. unfold write_text. by rewrite Hs, Hp. Qed.

(** The loop of [save_raw_output] appends the encoding of every line. *)
Lemma write_lines (p : text) (L : list text) (f : file) (w : World) :
  fs w !! p = Some (File f) →
  Forall (λ a, is_Some (utf8_encode (a ++ [newline]))) L →
  ∃ bs, utf8_encode (concat (map (λ a, a ++ [newline]) L)) = Some bs
    ∧ fst (for_each L (λ a, write_text p (a ++ [newline])) w) = inl tt
    ∧ fs (snd (for_each L (λ a, write_text p (a ++ [newline])) w))
      = <[p := File {| data := data f ++ bs; can_read := can_read f;
                       can_write := can_write f; read_fault := read_fault f |}]> (fs w).
Proof.
  revert f w. induction L as [|a L IH]; intros f w Hp HL.
  - exists []. split_and!; [done|done|]. simpl. rewrite app_nil_r.
    destruct f; simpl. by rewrite insert_id.
  - apply Forall_cons in HL as [[ba Hba] HL].
    cbn [for_each]. rewrite bind_run, (write_text_ok _ _ _ _ _ Hba Hp).
    set (f1 := {| data := data f ++ ba; can_read := can_read f;
                  can_write := can_write f; read_fault := read_fault f |}).
    destruct (IH f1 (set_node p (File f1) w)) as (bs & Henc & Hr & Hfs);
      [apply lookup_insert_eq|done|].
    exists (ba ++ bs). split_and!.
    + simpl. rewrite utf8_encode_app, Hba, Henc. done.
    + exact Hr.
    + rewrite Hfs. simpl. rewrite insert_insert_eq, app_assoc. done.
Qed.

Lemma py_sorted_elements (attributes : gset text) :
  StronglySorted py_str_lt (py_sorted (elements attributes))
  ∧ ∀ a, a ∈ py_sorted (elements attributes) ↔ a ∈ attributes.
Proof.
  split.
  - apply strongly_sorted_strict.
    + apply StronglySorted_merge_sort; [apply py_str_le_trans|apply py_str_le_total].
    + unfold py_sorted. rewrite merge_sort_Permutation. apply NoDup_elements.
  - intros a. unfold py_sorted. by rewrite merge_sort_Permutation, elem_of_elements.
Qed.

(** [save_raw_output] either fails and leaves the file system alone, or
    leaves at its path the file [attribute_lines] describes. *)
Lemma save_raw_output_result (p : text) (attributes : gset text)
    (interesting : list text) (w : World) :
  (∀ a, a ∈ attributes → (newline ∉ a) ∧ Forall (λ c, is_Some (utf8_encode_cp c)) a) →
  (fst (save_raw_output p attributes interesting w) ≠ inl tt
   ∧ fs (snd (save_raw_output p attributes interesting w)) = fs w)
  ∨ (fst (save_raw_output p attributes interesting w) = inl tt
     ∧ attribute_lines attributes (fs (snd (save_raw_output p attributes interesting w)) !! p)).
Proof.
  intros Hattr. destruct (py_sorted_elements attributes) as [Hsorted Hmem].
  unfold save_raw_output. set (L := py_sorted (elements attributes)) in *.
  assert (HL : Forall (λ a, is_Some (utf8_encode (a ++ [newline]))) L).
  { apply Forall_forall. intros a Ha. apply Hmem, Hattr in Ha as [_ Hv].
    apply utf8_encode_is_Some. apply Forall_app; split; [done|].
    constructor; [apply valid_of_range; unfold newline; lia|constructor]. }
  assert (Hnl : Forall (λ a, newline ∉ a) L).
  { apply Forall_forall. intros a Ha. by apply Hmem, Hattr in Ha as [? _]. }
  assert (Hwrite : ∀ f w1, fs w1 !! p = Some (File f) → data f = [] →
     fst (for_each L (λ a, write_text p (a ++ [newline])) w1) = inl tt ∧
     attribute_lines attributes
       (fs (snd (for_each L (λ a, write_text p (a ++ [newline])) w1)) !! p)).
  { intros f w1 Hp Hd. destruct (write_lines p L f w1 Hp HL) as (bs & Henc & Hr & Hfs).
    split; [done|]. rewrite Hfs, lookup_insert_eq.
    eexists _, L. split_and!; try done. simpl. rewrite Hd. done. }
  rewrite bind_run. unfold open_write.
  destruct (fs w !! p) as [[f|]|] eqn:Hp; cbn beta iota.
  - destruct (can_write f); cbn beta iota.
    + right. eapply Hwrite; [apply lookup_insert_eq|reflexivity].
    + left. split; [discriminate|done].
  - left. split; [discriminate|done].
  - right. eapply Hwrite; [apply lookup_insert_eq|reflexivity].
Qed.

Create HintDb fs_pres.
#[local] Hint Resolve preserves_ret preserves_print preserves_panel preserves_exists
  extract_preserves_fs : fs_pres.

Ltac solve_pres :=
  repeat first
    [ progress (auto with fs_pres)
    | apply preserves_bind; [|intros ?]
    | apply preserves_for_each; intros ?
    | match goal with
      | |- preserves_fs (if ?b then _ else _) => destruct b
      | |- preserves_fs (match ?x with _ => _ end) => destruct x
      end ].

Ltac case_meta :=
  repeat match goal with |- context [if ?b then _ else _] => destruct b end;
  reflexivity.

(** Every path of [main] that does not save leaves the file system alone. *)
Lemma main_no_output_preserves (f : text) : preserves_fs (main {| arg_file := f; arg_output := None |}).
Proof. unfold main, show_banner. cbv zeta. cbn [arg_output arg_file]. solve_pres. Qed.

Lemma banner_ok : render_ok banner = true.
Proof.
  unfold render_ok. replace (markup_tags banner) with (@nil tag) by (vm_compute; reflexivity).
  reflexivity.
Qed.

Lemma main_missing (path : text) (o : option text) (w : World) :
  fs w !! path = None →
  main {| arg_file := path; arg_output := o |} w =
  if render_ok (not_found_msg path)
  then (inl tt, emit (Printed (not_found_msg path)) (emit (PanelOut None banner) w))
  else (inr MarkupError, emit (PanelOut None banner) w).
Proof.
  intros Hp. unfold main, show_banner, console_print_panel, mbind, M_bind at 1.
  rewrite banner_ok. simpl. unfold mbind, M_bind, path_exists. simpl.
  rewrite Hp. simpl. unfold console_print. by destruct (render_ok _).
Qed.

Lemma not_found_bracket_fails : render_ok (not_found_msg (t "[/]")) = false.
Proof.
  unfold render_ok.
  replace (markup_tags (not_found_msg (t "[/]")))
    with [Tag (t "bold red") None; Tag (t "/") None; Tag (t "/") None]
    by (vm_compute; reflexivity).
  simpl. unfold close_ok. simpl. case_meta.
Qed.

(** C4 (failing input): a missing input file named ["[/]"]; the path is put
    into the markup of the message unescaped, so [rich] raises [MarkupError]
    instead of printing it.  Nothing is read or written. *)
Theorem main_not_found_bracket_path (o : option text) (w : World) :
  fs w !! t "[/]" = None →
  main {| arg_file := t "[/]"; arg_output := o |} w
  = (inr MarkupError, emit (PanelOut None banner) w).
Proof. intros Hp. rewrite main_missing by done. by rewrite not_found_bracket_fails. Qed.

(** A read that fails partway is reported and gives the empty set. *)
Lemma extract_read_fault (p : text) (f : file) (n : nat) (w : World) :
  fs w !! p = Some (File f) → can_read f = true → read_fault f = Some n →
  extract_ldap_attributes p w
  = (inl ∅, emit (Printed (read_error_msg (OSError EIO None))) w).
Proof.
  intros Hp Hr Hf.
  unfold extract_ldap_attributes, try_except, mbind, M_bind, open_read.
  rewrite Hp, Hr. unfold iterate_lines. rewrite Hf. simpl.
  unfold console_print.
  replace (render_ok (read_error_msg (OSError EIO None))) with true; [done|].
  unfold render_ok.
  replace (markup_tags (read_error_msg (OSError EIO None)))
    with [Tag (t "bold red") None; Tag (t "/") None] by (vm_compute; reflexivity).
  simpl. unfold close_ok. simpl. case_meta.
Qed.

(** C5 (failing input): an input path ["[/]"] that is a directory.  The
    [IsADirectoryError] is caught, but its message holds the path and the
    report [console.print(f"...{e}[/]")] raises [MarkupError] from the
    [except] block: no empty set is returned and the run aborts. *)
Theorem extract_directory_bracket_path (w : World) :
  fs w !! t "[/]" = Some Directory →
  extract_ldap_attributes (t "[/]") w = (inr MarkupError, w).
Proof.
  intros Hp.
  unfold extract_ldap_attributes, try_except, mbind, M_bind, open_read.
  rewrite Hp. unfold console_print.
  replace (render_ok (read_error_msg (OSError EISDIR (Some (t "[/]"))))) with false; [done|].
  unfold render_ok.
  replace (markup_tags (read_error_msg (OSError EISDIR (Some (t "[/]")))))
    with [Tag (t "bold red") None; Tag (t "/") None; Tag (t "/") None]
    by (vm_compute; reflexivity).
  simpl. unfold close_ok. simpl. case_meta.
Qed.

(** C8: the spec's example dump gives the attributes [cn], [userPassword] and
    [legacyFlag], and the interesting list [[legacyFlag; userPassword]], for
    any [str.lower] that lowercases ASCII text as CPython does. *)
Theorem example_extract_and_hunt :
  (∀ s, Forall (λ c, 0 ≤ c ≤ 127) s → py_lower s = map ascii_lower_cp s) →
  ∃ attributes,
    extract_ldap_attributes (t "dump.ldif") example_world = (inl attributes, example_world)
    ∧ attributes = {[ t "cn"; t "userPassword"; t "legacyFlag" ]}
    ∧ find_interesting_attributes attributes = [t "legacyFlag"; t "userPassword"].
Proof.
  intros Hlow. eexists. split; [by apply extract_readable|]. split.
  - vm_compute. reflexivity.
  - replace (scan_lines _ ∅) with ({[ t "cn"; t "userPassword"; t "legacyFlag" ]} : gset text)
      by (vm_compute; reflexivity).
    unfold find_interesting_attributes.
    replace (elements ({[ t "cn"; t "userPassword"; t "legacyFlag" ]} : gset text))
      with [t "cn"; t "legacyFlag"; t "userPassword"] by (vm_compute; reflexivity).
    cbn [collect_interesting].
    rewrite (Hlow (t "cn")), (Hlow (t "legacyFlag")), (Hlow (t "userPassword"))
      by (apply forallb_ascii; reflexivity).
    vm_compute. reflexivity.
Qed.

(** C9: what [save_raw_output] writes does not depend on its [interesting]
    argument. *)
Theorem save_raw_output_ignores_interesting (p : text) (attributes : gset text)
    (i1 i2 : list text) (w : World) :
  save_raw_output p attributes i1 w = save_raw_output p attributes i2 w.
Proof. reflexivity. Qed.

(** C10: [-o ""] runs exactly like a run without [-o]: nothing is written. *)
Theorem main_empty_output (f : text) (w : World) :
  main {| arg_file := f; arg_output := Some [] |} w
  = main {| arg_file := f; arg_output := None |} w
  ∧ fs (snd (main {| arg_file := f; arg_output := Some [] |} w)) = fs w.
Proof.
  assert (Heq : main {| arg_file := f; arg_output := Some [] |} w
                = main {| arg_file := f; arg_output := None |} w) by reflexivity.
  split; [done|]. rewrite Heq. apply main_no_output_preserves.
Qed.

Ltac run_step F W :=
  match goal with
  | |- context [@mbind _ _ _ _ ?k ?m ?w] =>
    rewrite (bind_run m k w);
    assert (F : preserves_fs m) by solve_pres; specialize (F w);
    destruct (m w) as [[?|?] W]; simpl in F; cbn beta iota
  end.

(** C3: with an output path, the run either leaves the file at that path as
    it was (it stopped before writing, or could not open it) or leaves there
    every attribute of the extracted set, each once, sorted, one per
    ["\n"]-terminated line, UTF-8 encoded, in place of what was there; and a
    run on an existing input that ends normally always leaves the latter. *)
Theorem main_output_file (args : Args) (p : text) (w : World) :
  arg_output args = Some p → p ≠ [] →
  let '(r, w') := main args w in
  (fs w' !! p = fs w !! p
   ∨ ∃ attributes, fst (extract_ldap_attributes (arg_file args) w) = inl attributes
       ∧ attribute_lines attributes (fs w' !! p))
  ∧ (is_Some (fs w !! arg_file args) → r = inl tt →
     ∃ attributes, fst (extract_ldap_attributes (arg_file args) w) = inl attributes
       ∧ attribute_lines attributes (fs w' !! p)).
Proof.
  intros Ho Hp. destruct args as [f o]; simpl in Ho; subst o.
  destruct p as [|c p]; [done|]. clear Hp.
  unfold main, show_banner. cbn [arg_file arg_output]. cbv zeta. unfold py_truthy. cbn beta iota.
  run_step F1 w1; [|split; [left; congruence|intros _ [=]]].
  rewrite bind_run. unfold path_exists at 1. cbn beta iota.
  destruct (bool_decide (is_Some (fs w1 !! f))) eqn:Hex; cbn [negb].
  2: { pose proof (preserves_print (not_found_msg f) w1) as F2.
       destruct (console_print (not_found_msg f) w1) as [r w2]. simpl in F2.
       split; [left; congruence|]. intros Hs _. rewrite <- F1 in Hs.
       apply bool_decide_eq_false in Hex. contradiction. }
  rewrite bind_run.
  pose proof (extract_preserves_fs f w1) as F2.
  pose proof (extract_fs_only f w1 w F1) as X.
  destruct (extract_ldap_attributes f w1) as [[attrs|e] w2] eqn:E2; simpl in F2, X;
    cbn beta iota; [|split; [left; congruence|intros _ [=]]].
  pose proof (extract_writable _ _ _ _ E2) as Hwr.
  run_step F3 w3; [|split; [left; congruence|intros _ [=]]].
  run_step F4 w4; [|split; [left; congruence|intros _ [=]]].
  run_step F5 w5; [|split; [left; congruence|intros _ [=]]].
  rewrite bind_run.
  destruct (save_raw_output_result (c :: p) attrs (find_interesting_attributes attrs) w5 Hwr)
    as [[Hr Hfs]|[Hr Hat]];
    destruct (save_raw_output (c :: p) attrs (find_interesting_attributes attrs) w5)
      as [[u6|e6] w6]; simpl in Hr |- *; try simpl in Hfs.
  - by destruct u6.
  - split; [left; congruence|intros _ [=]].
  - pose proof (preserves_print (saved_msg (c :: p)) w6) as F7.
    destruct (console_print (saved_msg (c :: p)) w6) as [r w7]. simpl in F7.
    assert (Hgood : ∃ attributes, fst (extract_ldap_attributes f w) = inl attributes
                      ∧ attribute_lines attributes (fs w7 !! (c :: p))).
    { exists attrs. rewrite F7. split; [congruence|done]. }
    split; [by right|by intros].
  - done.
Qed.

End Proofs.

(** ** Instances of the theorems on concrete runs *)

Lemma extract_ldap_attributes_exact_witness :
  fs example_world !! t "dump.ldif" = Some (File example_file)
  ∧ can_read example_file = true ∧ read_fault example_file = None
  ∧ ∃ attributes,
      @extract_ldap_attributes sample_runtime (t "dump.ldif") example_world
      = (inl attributes, example_world)
      ∧ ∀ a, a ∈ attributes ↔
        ∃ line pre post, line ∈ file_lines example_file ∧ (line = pre ++ colon :: post)
          ∧ (colon ∉ pre) ∧ head line ≠ Some hash_sign ∧ a = py_strip pre ∧ a ≠ [].
Proof.
  split_and!; [reflexivity|reflexivity|reflexivity|].
  apply (@extract_ldap_attributes_exact sample_runtime); reflexivity.
Defined.

Lemma main_output_file_witness :
  arg_output {| arg_file := t "dump.ldif"; arg_output := Some (t "out.txt") |}
    = Some (t "out.txt")
  ∧ t "out.txt" ≠ []
  ∧ let '(r, w') := @main sample_runtime
                      {| arg_file := t "dump.ldif"; arg_output := Some (t "out.txt") |}
                      example_world in
    (fs w' !! t "out.txt" = fs example_world !! t "out.txt"
     ∨ ∃ attributes,
         fst (@extract_ldap_attributes sample_runtime (t "dump.ldif") example_world)
           = inl attributes
         ∧ attribute_lines attributes (fs w' !! t "out.txt"))
    ∧ (is_Some (fs example_world !! t "dump.ldif") → r = inl tt →
       ∃ attributes,
         fst (@extract_ldap_attributes sample_runtime (t "dump.ldif") example_world)
           = inl attributes
         ∧ attribute_lines attributes (fs w' !! t "out.txt")).
Proof.
  split_and!; [reflexivity|discriminate|].
  apply (@main_output_file sample_runtime
           {| arg_file := t "dump.ldif"; arg_output := Some (t "out.txt") |});
    [reflexivity|discriminate].
Defined.

Lemma main_not_found_bracket_path_witness :
  fs example_world !! t "[/]" = None
  ∧ @main sample_runtime {| arg_file := t "[/]"; arg_output := Some (t "out.txt") |}
      example_world
    = (inr MarkupError, emit (PanelOut None banner) example_world).
Proof.
  split; [reflexivity|].
  apply (@main_not_found_bracket_path sample_runtime). reflexivity.
Defined.

Lemma extract_directory_bracket_path_witness :
  fs bracket_dir_world !! t "[/]" = Some Directory
  ∧ @extract_ldap_attributes sample_runtime (t "[/]") bracket_dir_world
    = (inr MarkupError, bracket_dir_world).
Proof.
  split; [reflexivity|].
  apply (@extract_directory_bracket_path sample_runtime). reflexivity.
Defined.

Lemma extract_ldap_attributes_indented_hash_witness :
  indented_line ∈ file_lines indented_file
  ∧ ∃ attributes,
      @extract_ldap_attributes sample_runtime (t "in.ldif") indented_world
      = (inl attributes, indented_world)
      ∧ py_strip (split_colon_head indented_line) ∈ attributes.
Proof.
  split; [apply (bool_decide_unpack _); vm_compute; reflexivity|].
  apply (@extract_ldap_attributes_indented_hash sample_runtime (t "in.ldif") indented_file
           indented_world indented_line [32] (t " x: y" ++ [newline]));
    [reflexivity|reflexivity|reflexivity
    |apply (bool_decide_unpack _); vm_compute; reflexivity
    |reflexivity|discriminate
    |constructor; [reflexivity|constructor]
    |apply (bool_decide_unpack _); vm_compute; reflexivity].
Defined.

Lemma example_extract_and_hunt_witness :
  (∀ s, Forall (λ c, 0 ≤ c ≤ 127) s → @py_lower sample_runtime s = map ascii_lower_cp s)
  ∧ ∃ attributes,
      @extract_ldap_attributes sample_runtime (t "dump.ldif") example_world
      = (inl attributes, example_world)
      ∧ attributes = {[ t "cn"; t "userPassword"; t "legacyFlag" ]}
      ∧ @find_interesting_attributes sample_runtime attributes
        = [t "legacyFlag"; t "userPassword"].
Proof.
  split; [intros s _; reflexivity|].
  apply (@example_extract_and_hunt sample_runtime). intros s _. reflexivity.
Defined.

(** ** Further properties of the script *)

(** *** UTF-8: what [save_raw_output] writes, [open(..., errors='ignore')] reads back *)
Lemma div_mod_64 (x : Z) : x = 64 * (x / 64) + x mod 64 ∧ 0 ≤ x mod 64 < 64.
Proof. split; [apply Z.div_mod; lia|apply Z.mod_pos_bound; lia]. Qed.
Ltac decide_ifs :=
  repeat match goal with
  | |- context [if ?x then _ else _] =>
    destruct x eqn:?; bool_arith; try (exfalso; lia)
  end.
Lemma utf8_decode_encode_cp (c : Z) (b r : list Z) :
  utf8_encode_cp c = Some b → utf8_decode_ignore (b ++ r) = c :: utf8_decode_ignore r.
Proof.
  intros Hc. unfold utf8_encode_cp in Hc.
  assert (D1 : c / 4096 = c / 64 / 64) by (rewrite Z.div_div by lia; reflexivity).
  assert (D2 : c / 262144 = c / 64 / 64 / 64) by (rewrite !Z.div_div by lia; reflexivity).
  rewrite D2, D1 in Hc. clear D1 D2.
  destruct (div_mod_64 c) as [Hc0 Hm0].
  set (q := c / 64) in *. set (m := c mod 64) in *. clearbody q m.
  destruct (div_mod_64 q) as [Hq0 Hm1].
  set (q' := q / 64) in *. set (m1 := q mod 64) in *. clearbody q' m1.
  destruct (div_mod_64 q') as [Hq1 Hm2].
  set (q'' := q' / 64) in *. set (m2 := q' mod 64) in *. clearbody q'' m2.
  destruct (in_range 0 0x7F c) eqn:E1.
  { injection Hc as <-. bool_arith; cbn [app utf8_decode_ignore]; decide_ifs; done. }
  destruct (in_range 0x80 0x7FF c) eqn:E2.
  { injection Hc as <-. bool_arith; cbn [app utf8_decode_ignore];
    decide_ifs; f_equal; lia. }
  destruct (in_range 0xD800 0xDFFF c) eqn:E3; [discriminate|].
  destruct (in_range 0x800 0xFFFF c) eqn:E4.
  { injection Hc as <-. bool_arith; cbn [app utf8_decode_ignore];
    decide_ifs; f_equal; lia. }
  destruct (in_range 0x10000 0x10FFFF c) eqn:E5; [|discriminate].
  injection Hc as <-. bool_arith; cbn [app utf8_decode_ignore];
    decide_ifs; f_equal; lia.
Qed.

Lemma utf8_decode_encode_app (s : text) (bs r : list Z) :
  utf8_encode s = Some bs → utf8_decode_ignore (bs ++ r) = s ++ utf8_decode_ignore r.
Proof.
  revert bs; induction s as [|c s IH]; intros bs H; cbn [utf8_encode] in H.
  - by injection H as <-.
  - destruct (utf8_encode_cp c) as [b|] eqn:Ec; [|done].
    destruct (utf8_encode s) as [bs'|] eqn:Es; [|done].
    injection H as <-. rewrite <- app_assoc, (utf8_decode_encode_cp c b (bs' ++ r) Ec).
    cbn [app]. f_equal. by apply IH.
Qed.

(** Decoding the UTF-8 encoding of a text gives the text back: the bytes
    [f.write] stores are read back unchanged. *)
Theorem utf8_decode_encode (s : text) (bs : list Z) :
  utf8_encode s = Some bs → utf8_decode_ignore bs = s.
Proof.
  intros H. pose proof (utf8_decode_encode_app s bs [] H) as E.
  rewrite app_nil_r in E. rewrite E. apply app_nil_r.
Qed.

(** *** Lines of a text file *)

Lemma split_lines_aux_concat (s cur : text) :
  concat (split_lines_aux s cur) = rev cur ++ s.
Proof.
  revert cur; induction s as [|c s IH]; intros cur; cbn [split_lines_aux].
  - destruct cur as [|x xs]; simpl; [done|by rewrite app_nil_r].
  - destruct (c =? newline) eqn:E.
    + apply Z.eqb_eq in E as ->. cbn [concat]. rewrite IH. simpl. by rewrite <- app_assoc.
    + rewrite IH. simpl. by rewrite <- app_assoc.
Qed.

Lemma translate_newlines_no_cr (s : text) : 13 ∉ translate_newlines s.
Proof.
  remember (length s) as n eqn:Hn. assert (Hle : (length s ≤ n)%nat) by lia.
  clear Hn. revert s Hle. induction n as [|n IH]; intros s Hle.
  { destruct s; [simpl; set_solver|simpl in Hle; lia]. }
  destruct s as [|d r]; [simpl; set_solver|]. simpl in Hle. simpl.
  destruct (d =? 13) eqn:Hd.
  - destruct r as [|d' r'].
    + rewrite list_elem_of_singleton. unfold newline. lia.
    + destruct (d' =? newline); rewrite elem_of_cons; intros [Hc|Hc];
        try (unfold newline in Hc; lia); revert Hc; apply IH; simpl in *; lia.
  - apply Z.eqb_neq in Hd. rewrite elem_of_cons. intros [Hc|Hc]; [lia|].
    revert Hc. apply IH. lia.
Qed.

Lemma translate_newlines_id (s : text) : 13 ∉ s → translate_newlines s = s.
Proof.
  induction s as [|c s IH]; intros Hs; [done|]. simpl.
  destruct (Z.eqb_spec c 13) as [->|Hne]; [set_solver|]. f_equal. apply IH. set_solver.
Qed.

Lemma split_lines_aux_line (a rest cur : text) :
  newline ∉ a →
  split_lines_aux (a ++ newline :: rest) cur = (rev cur ++ a ++ [newline]) :: split_lines_aux rest [].
Proof.
  revert cur; induction a as [|c a IH]; intros cur Ha; cbn [app split_lines_aux].
  - rewrite Z.eqb_refl. done.
  - destruct (Z.eqb_spec c newline) as [->|Hne]; [set_solver|].
    rewrite IH by set_solver. simpl. by rewrite <- app_assoc.
Qed.

Lemma split_lines_concat_lines (L : list text) :
  Forall (λ a, newline ∉ a) L →
  split_lines (concat (map (λ a, a ++ [newline]) L)) = map (λ a, a ++ [newline]) L.
Proof.
  unfold split_lines. induction 1 as [|a L Ha _ IH]; [done|].
  cbn [map concat]. rewrite <- !app_assoc. cbn [app].
  rewrite split_lines_aux_line by done. simpl. by rewrite IH.
Qed.

Lemma split_colon_head_subset (s : text) (c : Z) : c ∈ split_colon_head s → c ∈ s.
Proof.
  induction s as [|d s IH]; simpl; [done|].
  destruct (d =? colon); [set_solver|]. rewrite !elem_of_cons. tauto.
Qed.

Lemma split_colon_head_no_colon (s : text) : colon ∉ split_colon_head s.
Proof.
  induction s as [|d s IH]; simpl; [set_solver|].
  destruct (Z.eqb_spec d colon); [set_solver|]. rewrite elem_of_cons. intros [Heq|Hin]; [congruence|tauto].
Qed.

Lemma file_lines_no_cr (f : file) (line : text) : line ∈ file_lines f → 13 ∉ line.
Proof.
  intros Hl Hc. unfold file_lines, split_lines in Hl.
  destruct (split_lines_aux_spec _ _ _ (not_elem_of_nil _) Hl) as [Hch _].
  destruct (Hch 13 Hc) as [Hin|Hin]; [|set_solver].
  by apply translate_newlines_no_cr in Hin.
Qed.

Lemma py_lstrip_head (s : text) (c : Z) : head (py_lstrip s) = Some c → py_isspace c = false.
Proof.
  induction s as [|d s IH]; simpl; [done|].
  destruct (py_isspace d) eqn:E; [done|]. simpl. by intros [= <-].
Qed.

Lemma py_lstrip_last (s : text) : py_lstrip s ≠ [] → last (py_lstrip s) = last s.
Proof.
  induction s as [|d s IH]; simpl; [done|].
  destruct (py_isspace d); [|done]. intros Hne. rewrite IH by done.
  destruct s; [done|done].
Qed.

Lemma last_rev_head (x : text) : last (rev x) = head x.
Proof. destruct x as [|c x]; simpl; [done|]. by rewrite last_snoc. Qed.

Lemma head_rev_last (x : text) : head (rev x) = last x.
Proof. rewrite <- (rev_involutive x) at 2. by rewrite last_rev_head. Qed.

Lemma py_strip_ends (s : text) :
  (∀ c, head (py_strip s) = Some c → py_isspace c = false)
  ∧ (∀ c, last (py_strip s) = Some c → py_isspace c = false).
Proof.
  unfold py_strip. split; intros c.
  - rewrite head_rev_last.
    destruct (py_lstrip (rev (py_lstrip s))) eqn:E; [done|].
    rewrite <- E, py_lstrip_last by (rewrite E; done).
    rewrite last_rev_head. apply py_lstrip_head.
  - rewrite last_rev_head. apply py_lstrip_head.
Qed.

Lemma utf8_decode_ascii (b : Z) (d : list Z) :
  0 ≤ b ≤ 127 → utf8_decode_ignore (b :: d) = b :: utf8_decode_ignore d.
Proof.
  intros Hb. cbn [utf8_decode_ignore].
  replace (in_range 0 0x7F b) with true; [done|].
  symmetry. unfold in_range. apply andb_true_iff. split; apply Z.leb_le; lia.
Qed.

Lemma utf8_decode_app_ascii (d1 d2 : list Z) (b : Z) :
  0 ≤ b ≤ 127 →
  utf8_decode_ignore (d1 ++ b :: d2) = utf8_decode_ignore d1 ++ b :: utf8_decode_ignore d2.
Proof.
  intros Hb. remember (length d1) as n eqn:Hn. assert (Hle : (length d1 ≤ n)%nat) by lia.
  clear Hn. revert d1 Hle. induction n as [|n IH]; intros d1 Hle.
  { destruct d1; [by apply utf8_decode_ascii|simpl in Hle; lia]. }
  destruct d1 as [|b0 r0]; [by apply utf8_decode_ascii|]. simpl in Hle.
  cbn [app utf8_decode_ignore].
  repeat match goal with
  | |- context [match ?l ++ _ with [] => _ | _ :: _ => _ end] => destruct l; cbn [app] in *
  | |- context [if ?x then _ else _] => destruct x eqn:?
  end; bool_arith;
  first
    [ exfalso; lia
    | reflexivity
    | rewrite utf8_decode_ascii by lia; reflexivity
    | match goal with
      | |- utf8_decode_ignore _ = utf8_decode_ignore ?r ++ b :: utf8_decode_ignore d2 =>
        apply (IH r); simpl in *; lia
      | |- ?y :: utf8_decode_ignore _ = (?y :: utf8_decode_ignore ?r) ++ _ =>
        cbn [app]; f_equal; apply (IH r); simpl in *; lia
      end ].
Qed.

Lemma translate_newlines_cons (c : Z) (r : text) :
  translate_newlines (c :: r) =
  if c =? 13 then
    match r with
    | c' :: r' =>
      if c' =? newline then newline :: translate_newlines r'
      else newline :: translate_newlines r
    | [] => [newline]
    end
  else c :: translate_newlines r.
Proof. reflexivity. Qed.

Lemma translate_newlines_app_nl (s t : text) :
  ∃ u, translate_newlines (s ++ newline :: t) = u ++ newline :: translate_newlines t
    ∧ translate_newlines (s ++ [newline]) = u ++ [newline].
Proof.
  remember (length s) as n eqn:Hn. assert (Hle : (length s ≤ n)%nat) by lia.
  clear Hn. revert s Hle. induction n as [|n IH]; intros s Hle.
  { destruct s; [|simpl in Hle; lia]. exists []. split; reflexivity. }
  destruct s as [|d r]; [exists []; split; reflexivity|]. simpl in Hle.
  cbn [app]. rewrite !translate_newlines_cons.
  destruct (d =? 13).
  - destruct r as [|d' r'']; cbn [app].
    + exists []. rewrite Z.eqb_refl. split; reflexivity.
    + destruct (d' =? newline).
      * destruct (IH r'') as (u & H1 & H2); [simpl in *; lia|].
        exists (newline :: u). rewrite H1, H2. split; reflexivity.
      * destruct (IH (d' :: r'')) as (u & H1 & H2); [simpl in *; lia|].
        exists (newline :: u). cbn [app] in H1, H2. rewrite H1, H2. split; reflexivity.
  - destruct (IH r) as (u & H1 & H2); [lia|].
    exists (d :: u). rewrite H1, H2. split; reflexivity.
Qed.

Lemma split_lines_aux_app_nl (s t cur : text) :
  split_lines_aux (s ++ newline :: t) cur
  = split_lines_aux (s ++ [newline]) cur ++ split_lines_aux t [].
Proof.
  revert cur; induction s as [|c s IH]; intros cur; cbn [app split_lines_aux].
  - rewrite Z.eqb_refl. reflexivity.
  - destruct (c =? newline); [|apply IH]. rewrite IH. reflexivity.
Qed.

Lemma file_lines_app (f f1 f2 : file) (d : list Z) :
  data f1 = d ++ [newline] → data f = data f1 ++ data f2 →
  file_lines f = file_lines f1 ++ file_lines f2.
Proof.
  intros H1 H2. unfold file_lines. rewrite H2, H1, <- app_assoc. cbn [app].
  rewrite !utf8_decode_app_ascii by (unfold newline; lia). cbn [utf8_decode_ignore].
  destruct (translate_newlines_app_nl (utf8_decode_ignore d) (utf8_decode_ignore (data f2)))
    as (u & E1 & E2).
  rewrite E1, E2. unfold split_lines. apply split_lines_aux_app_nl.
Qed.

Lemma scan_lines_app (l1 l2 : list text) :
  scan_lines (l1 ++ l2) ∅ = scan_lines l1 ∅ ∪ scan_lines l2 ∅.
Proof.
  apply set_eq. intros a. rewrite elem_of_union, !scan_lines_spec.
  setoid_rewrite elem_of_app. set_solver.
Qed.

(** *** The markup of the messages that hold a path *)













Section Extra.
Context `{Runtime}.





(** *** [extract_ldap_attributes] *)


Lemma extract_attribute_line (p : text) (w w' : World) (attributes : gset text) (a : text) :
  extract_ldap_attributes p w = (inl attributes, w') → a ∈ attributes →
  ∃ f line, line ∈ file_lines f ∧ colon ∈ line ∧ a = py_strip (split_colon_head line) ∧ a ≠ [].
Proof.
  intros E Ha. destruct (extract_result _ _ _ _ E) as [->|(f & _ & ->)]; [set_solver|].
  apply scan_lines_spec in Ha as [Ha|(line & Hl & Hc & _ & -> & Hne)]; [set_solver|].
  exists f, line. split_and!; try done. by apply py_contains_single.
Qed.

Lemma extract_attribute_no_cr (p : text) (w w' : World) (attributes : gset text) (a : text) :
  extract_ldap_attributes p w = (inl attributes, w') → a ∈ attributes → 13 ∉ a.
Proof.
  intros E Ha Hin.
  destruct (extract_attribute_line _ _ _ _ _ E Ha) as (f & line & Hl & _ & -> & _).
  apply py_strip_subset, split_colon_head_subset in Hin.
  by apply (file_lines_no_cr f line).
Qed.

(** Every attribute [extract_ldap_attributes] returns is non-empty, holds no
    colon, no line feed and no carriage return, and neither starts nor ends
    with white space. *)
Theorem extract_attribute_shape (p : text) (w w' : World) (attributes : gset text) (a : text) :
  extract_ldap_attributes p w = (inl attributes, w') → a ∈ attributes →
  a ≠ [] ∧ (colon ∉ a) ∧ (newline ∉ a) ∧ (13 ∉ a)
  ∧ (∀ c, head a = Some c → py_isspace c = false)
  ∧ (∀ c, last a = Some c → py_isspace c = false).
Proof.
  intros E Ha.
  pose proof (extract_attribute_no_cr _ _ _ _ _ E Ha) as Hcr.
  destruct (extract_attribute_line _ _ _ _ _ E Ha) as (f & line & Hl & Hc & -> & Hne).
  destruct (py_strip_ends (split_colon_head line)) as [Hh Hlast].
  destruct (extract_writable _ _ _ _ E _ Ha) as [Hnl _].
  split_and!; try done.
  intros Hin. apply py_strip_subset in Hin. by apply split_colon_head_no_colon in Hin.
Qed.

(** A dump made of two dumps, the first ending in a line feed, has as
    attributes the union of the attributes of the two. *)
Theorem extract_ldap_attributes_concat (p p1 p2 : text) (f f1 f2 : file) (w : World) :
  fs w !! p1 = Some (File f1) → can_read f1 = true → read_fault f1 = None →
  fs w !! p2 = Some (File f2) → can_read f2 = true → read_fault f2 = None →
  fs w !! p = Some (File f) → can_read f = true → read_fault f = None →
  last (data f1) = Some newline → data f = data f1 ++ data f2 →
  ∃ attributes1 attributes2,
    extract_ldap_attributes p1 w = (inl attributes1, w)
    ∧ extract_ldap_attributes p2 w = (inl attributes2, w)
    ∧ extract_ldap_attributes p w = (inl (attributes1 ∪ attributes2), w).
Proof.
  intros H1 R1 F1 H2 R2 F2 Hp R F Hl Hd.
  apply last_Some in Hl as [d Hd1].
  eexists _, _. split_and!; [by apply extract_readable|by apply extract_readable|].
  rewrite (extract_readable p f w) by done.
  rewrite (file_lines_app f f1 f2 d Hd1 Hd), scan_lines_app. done.
Qed.


(** *** [find_interesting_attributes] *)

(** The interesting list is never longer than the set it is drawn from, so
    the second count of the statistics panel never exceeds the first. *)
Theorem find_interesting_attributes_count (attributes : gset text) :
  (length (find_interesting_attributes attributes) ≤ size attributes)%nat.
Proof.
  unfold find_interesting_attributes, py_sorted.
  rewrite merge_sort_Permutation, collect_interesting_filter, app_nil_l.
  etrans; [apply length_filter|]. reflexivity.
Qed.

(** *** [save_raw_output] *)

Lemma world_eq (a b : World) : fs a = fs b → console a = console b → a = b.
Proof. destruct a, b; simpl; intros -> ->; reflexivity. Qed.

Lemma write_text_local (p s : text) (w : World) :
  console (snd (write_text p s w)) = console w
  ∧ ∀ q, q ≠ p → fs (snd (write_text p s w)) !! q = fs w !! q.
Proof.
  unfold write_text.
  destruct (utf8_encode s), (fs w !! p) as [[f|]|]; simpl; split; try done;
    intros q Hq; rewrite lookup_insert_ne; congruence.
Qed.

Lemma for_each_write_local (p : text) (L : list text) (w : World) :
  console (snd (for_each L (λ a, write_text p (a ++ [newline])) w)) = console w
  ∧ ∀ q, q ≠ p → fs (snd (for_each L (λ a, write_text p (a ++ [newline])) w)) !! q = fs w !! q.
Proof.
  revert w; induction L as [|a L IH]; intros w; cbn [for_each]; [done|].
  rewrite bind_run. destruct (write_text_local p (a ++ [newline]) w) as [C1 L1].
  destruct (write_text p (a ++ [newline]) w) as [[u|e] w1]; simpl in C1, L1 |- *.
  - destruct (IH w1) as [C2 L2]. split; [congruence|]. intros q Hq. by rewrite L2, L1.
  - done.
Qed.

Lemma open_write_local (p : text) (w : World) :
  console (snd (open_write p w)) = console w
  ∧ ∀ q, q ≠ p → fs (snd (open_write p w)) !! q = fs w !! q.
Proof.
  unfold open_write.
  destruct (fs w !! p) as [[f|]|]; [destruct (can_write f)|..]; simpl; split; try done;
    intros q Hq; rewrite lookup_insert_ne; congruence.
Qed.

Lemma save_raw_output_keeps (p : text) (attributes : gset text)
    (interesting : list text) (w : World) :
  console (snd (save_raw_output p attributes interesting w)) = console w
  ∧ ∀ q, q ≠ p → fs (snd (save_raw_output p attributes interesting w)) !! q = fs w !! q.
Proof.
  unfold save_raw_output. rewrite bind_run.
  destruct (open_write_local p w) as [C1 L1].
  destruct (open_write p w) as [[u|e] w1]; simpl in C1, L1 |- *; [|done].
  destruct (for_each_write_local p (py_sorted (elements attributes)) w1) as [C2 L2].
  split; [congruence|]. intros q Hq. by rewrite L2, L1.
Qed.

(** [save_raw_output] prints nothing and touches no path but its own. *)
Theorem save_raw_output_local (p : text) (attributes : gset text)
    (interesting : list text) (w : World) :
  let '(r, w') := save_raw_output p attributes interesting w in
  console w' = console w ∧ ∀ q, q ≠ p → fs w' !! q = fs w !! q.
Proof.
  pose proof (save_raw_output_keeps p attributes interesting w) as K.
  destruct (save_raw_output p attributes interesting w) as [r w']. exact K.
Qed.


Lemma open_write_ok (p : text) (w w1 : World) (u : unit) :
  open_write p w = (inl u, w1) →
  ∃ f0, w1 = set_node p (File f0) w ∧ data f0 = [] ∧ can_write f0 = true.
Proof.
  unfold open_write. destruct (fs w !! p) as [[f|]|]; [destruct (can_write f)|..];
    intros [=]; subst; eexists; split_and!; reflexivity.
Qed.

Lemma open_write_err (p : text) (w w1 : World) (e : exn) :
  open_write p w = (inr e, w1) → w1 = w.
Proof.
  unfold open_write. destruct (fs w !! p) as [[f|]|]; [destruct (can_write f)|..];
    intros [=]; congruence.
Qed.

Lemma for_each_write_shape (p : text) (L : list text) (g : file) (w : World) :
  fs w !! p = Some (File g) →
  ∃ g', fs (snd (for_each L (λ a, write_text p (a ++ [newline])) w)) = <[p := File g']> (fs w)
    ∧ can_read g' = can_read g ∧ can_write g' = can_write g ∧ read_fault g' = read_fault g.
Proof.
  revert g w; induction L as [|a L IH]; intros g w Hp; cbn [for_each].
  - exists g. split_and!; try done. simpl. by rewrite insert_id.
  - rewrite bind_run. unfold write_text at 1. rewrite Hp.
    destruct (utf8_encode (a ++ [newline])) as [bs|]; cbn beta iota.
    + set (g1 := {| data := data g ++ bs; can_read := can_read g;
                    can_write := can_write g; read_fault := read_fault g |}).
      destruct (IH g1 (set_node p (File g1) w)) as (g' & Hfs & R & W & F);
        [apply lookup_insert_eq|].
      exists g'. rewrite Hfs. simpl. rewrite insert_insert_eq. split_and!; done.
    + exists g. split_and!; try done. simpl. by rewrite insert_id.
Qed.

(** [save_raw_output] overwrites: saving the same set twice leaves the
    same file, and gives the same result, as saving it once. *)
Theorem save_raw_output_idempotent (p : text) (attributes : gset text)
    (interesting : list text) (w : World) :
  save_raw_output p attributes interesting (snd (save_raw_output p attributes interesting w))
  = save_raw_output p attributes interesting w.
Proof.
  unfold save_raw_output. set (L := py_sorted (elements attributes)).
  rewrite (bind_run (open_write p) _ w).
  destruct (open_write p w) as [[u|e] w1] eqn:Eo.
  2: { assert (w1 = w) by (eapply open_write_err; eauto). subst w1.
       cbn [snd]. by rewrite bind_run, Eo. }
  apply open_write_ok in Eo as (f0 & -> & D0 & W0).
  assert (Hp : fs (set_node p (File f0) w) !! p = Some (File f0)) by apply lookup_insert_eq.
  destruct (for_each_write_shape p L f0 _ Hp) as (g' & Hfs & R & W & F).
  destruct (for_each_write_local p L (set_node p (File f0) w)) as [C _].
  destruct (for_each L _ (set_node p (File f0) w)) as [r W2] eqn:ER.
  simpl in Hfs, C |- *.
  assert (Eo2 : open_write p W2 = (inl tt, set_node p (File f0) w)).
  { unfold open_write. rewrite Hfs, lookup_insert_eq, W, W0. f_equal.
    apply world_eq; simpl; [|done].
    rewrite Hfs, !insert_insert_eq. do 2 f_equal.
    destruct f0 as [d0 cr0 cw0 rf0]; simpl in *. subst. done. }
  rewrite bind_run, Eo2. cbn beta iota. by rewrite ER.
Qed.

(** Reading back the file a successful [save_raw_output] wrote, for a set
    [extract_ldap_attributes] returned, gives one line per attribute, each
    ended by a line feed, in increasing order, each attribute once. *)
Theorem save_raw_output_read_back (p q : text) (w w1 w2 : World) (attributes : gset text)
    (interesting : list text) :
  extract_ldap_attributes p w = (inl attributes, w1) →
  fst (save_raw_output q attributes interesting w2) = inl tt →
  ∃ f lines, fs (snd (save_raw_output q attributes interesting w2)) !! q = Some (File f)
    ∧ file_lines f = map (λ a, a ++ [newline]) lines
    ∧ StronglySorted py_str_lt lines ∧ (∀ a, a ∈ lines ↔ a ∈ attributes).
Proof.
  intros E Hok.
  destruct (save_raw_output_result q attributes interesting w2 (extract_writable _ _ _ _ E))
    as [[Hr _]|[_ (f & lines & Hf & Henc & Hs & Hm & Hnl)]]; [done|].
  exists f, lines. split_and!; try done.
  unfold file_lines. rewrite <- (app_nil_r (data f)), (utf8_decode_encode_app _ _ _ Henc).
  cbn [utf8_decode_ignore]. rewrite app_nil_r, translate_newlines_id.
  - by apply split_lines_concat_lines.
  - intros Hin. apply list_elem_of_In, in_concat in Hin as (l & Hl & Hin).
    apply list_elem_of_In, list_elem_of_fmap in Hl as (a & -> & Ha).
    apply list_elem_of_In, elem_of_app in Hin as [Hin|Hin].
    + apply Hm in Ha. by apply (extract_attribute_no_cr _ _ _ _ _ E Ha).
    + apply list_elem_of_singleton in Hin. unfold newline in Hin. lia.
Qed.

(** *** [main] *)

Lemma console_grows_bind {A B} (m : M A) (k : A → M B) :
  console_grows m → (∀ x, console_grows (k x)) → console_grows (m ≫= k).
Proof.
  intros Hm Hk w. rewrite bind_run. destruct (Hm w) as [o1 E1].
  destruct (m w) as [[x|e] w1]; simpl in E1 |- *; [|by exists o1].
  destruct (Hk x w1) as [o2 E2]. exists (o1 ++ o2). by rewrite E2, E1, app_assoc.
Qed.

Lemma console_grows_ret {A} (x : A) : console_grows (mret x).
Proof. intros w. exists []. by rewrite app_nil_r. Qed.

Lemma console_grows_print (s : text) : console_grows (console_print s).
Proof.
  intros w. unfold console_print. destruct (render_ok s); [by eexists|].
  exists []. by rewrite app_nil_r.
Qed.

Lemma console_grows_panel (ti : option text) (b : text) : console_grows (console_print_panel ti b).
Proof.
  intros w. unfold console_print_panel. destruct (_ && _); [by eexists|].
  exists []. by rewrite app_nil_r.
Qed.

Lemma console_grows_exists (p : text) : console_grows (path_exists p).
Proof. intros w. exists []. by rewrite app_nil_r. Qed.

Lemma console_grows_for_each {A} (l : list A) (body : A → M unit) :
  (∀ x, console_grows (body x)) → console_grows (for_each l body).
Proof.
  intros Hb. induction l as [|x l IH]; cbn [for_each];
    [apply console_grows_ret|by apply console_grows_bind].
Qed.

Lemma console_grows_extract (p : text) : console_grows (extract_ldap_attributes p).
Proof.
  intros w. unfold extract_ldap_attributes, try_except, mbind, M_bind, open_read,
    raise, mret, M_ret, console_print.
  destruct (fs w !! p) as [[f|]|]; cbn beta iota;
    [destruct (can_read f); cbn beta iota;
     [destruct (iterate_lines f) as [lines [e|]]; cbn beta iota|]|..];
    repeat match goal with |- context [if ?b then _ else _] => destruct b end;
    cbn [snd emit console]; first [exists []; by rewrite app_nil_r | by eexists].
Qed.

Lemma console_grows_save (p : text) (attributes : gset text) (interesting : list text) :
  console_grows (save_raw_output p attributes interesting).
Proof.
  intros w. exists []. rewrite app_nil_r. apply save_raw_output_keeps.
Qed.

Lemma unchanged_at_bind {A B} (q : text) (m : M A) (k : A → M B) :
  unchanged_at q m → (∀ x, unchanged_at q (k x)) → unchanged_at q (m ≫= k).
Proof.
  intros Hm Hk w. rewrite bind_run. specialize (Hm w).
  destruct (m w) as [[x|e] w1]; simpl in Hm |- *; [|done]. by rewrite Hk.
Qed.

Lemma unchanged_at_pres {A} (q : text) (m : M A) : preserves_fs m → unchanged_at q m.
Proof. intros Hm w. by rewrite Hm. Qed.

Lemma unchanged_at_for_each {A} (q : text) (l : list A) (body : A → M unit) :
  (∀ x, unchanged_at q (body x)) → unchanged_at q (for_each l body).
Proof.
  intros Hb. induction l as [|x l IH]; cbn [for_each];
    [by apply unchanged_at_pres, preserves_ret|by apply unchanged_at_bind].
Qed.

Lemma unchanged_at_save (q p : text) (attributes : gset text) (interesting : list text) :
  q ≠ p → unchanged_at q (save_raw_output p attributes interesting).
Proof. intros Hq w. by apply save_raw_output_keeps. Qed.

Lemma show_banner_run (w : World) : show_banner w = (inl tt, emit (PanelOut None banner) w).
Proof. unfold show_banner, console_print_panel. by rewrite banner_ok. Qed.

(** [main] only appends to the console, and what it appends starts with the
    banner panel; it changes no file but the one at its output path. *)
Theorem main_console_and_files (args : Args) (w : World) :
  let '(r, w') := main args w in
  (∃ outs, console w' = console w ++ PanelOut None banner :: outs)
  ∧ ∀ q, arg_output args ≠ Some q → fs w' !! q = fs w !! q.
Proof.
  destruct args as [f o]. unfold main. cbn [arg_file arg_output].
  rewrite bind_run, show_banner_run. cbn beta iota.
  match goal with |- context [?m (emit (PanelOut None banner) w)] => set (rest := m) end.
  assert (Hc : console_grows rest).
  { unfold rest. cbv zeta.
    repeat match goal with
      | |- console_grows (save_raw_output _ _ _) => apply console_grows_save
      | |- console_grows (extract_ldap_attributes _) => apply console_grows_extract
      | |- console_grows (console_print _) => apply console_grows_print
      | |- console_grows (console_print_panel _ _) => apply console_grows_panel
      | |- console_grows (path_exists _) => apply console_grows_exists
      | |- console_grows (mret _) => apply console_grows_ret
      | |- console_grows (mbind _ _) => apply console_grows_bind; [|intros ?]
      | |- console_grows (for_each _ _) => apply console_grows_for_each; intros ?
      | |- console_grows (if ?b then _ else _) => destruct b
      | |- console_grows (match ?x with _ => _ end) => destruct x
      end. }
  assert (Hu : ∀ q, o ≠ Some q → unchanged_at q rest).
  { intros q Hq. unfold rest. cbv zeta.
    repeat match goal with
      | |- unchanged_at _ (save_raw_output _ _ _) => apply unchanged_at_save; congruence
      | |- unchanged_at _ (extract_ldap_attributes _) =>
        apply unchanged_at_pres, extract_preserves_fs
      | |- unchanged_at _ (console_print _) => apply unchanged_at_pres, preserves_print
      | |- unchanged_at _ (console_print_panel _ _) => apply unchanged_at_pres, preserves_panel
      | |- unchanged_at _ (path_exists _) => apply unchanged_at_pres, preserves_exists
      | |- unchanged_at _ (mret _) => apply unchanged_at_pres, preserves_ret
      | |- unchanged_at _ (mbind _ _) => apply unchanged_at_bind; [|intros ?]
      | |- unchanged_at _ (for_each _ _) => apply unchanged_at_for_each; intros ?
      | |- unchanged_at _ (if ?b then _ else _) => destruct b
      | |- unchanged_at _ (match ?x with _ => _ end) => destruct x
      end. }
  destruct (Hc (emit (PanelOut None banner) w)) as [outs Eo].
  specialize (fun q Hq => Hu q Hq (emit (PanelOut None banner) w)).
  destruct (rest (emit (PanelOut None banner) w)) as [r w'].
  simpl in Eo, Hu. split.
  - exists outs. rewrite Eo. by rewrite <- app_assoc.
  - exact Hu.
Qed.


End Extra.

(** ** Instances of the further properties on concrete runs *)

Lemma utf8_decode_encode_witness :
  utf8_encode [99; 233; 8364; 128512]
    = Some [99; 195; 169; 226; 130; 172; 240; 159; 152; 128]
  ∧ utf8_decode_ignore [99; 195; 169; 226; 130; 172; 240; 159; 152; 128]
    = [99; 233; 8364; 128512].
Proof.
  split; [vm_compute; reflexivity|].
  apply utf8_decode_encode. vm_compute. reflexivity.
Defined.

Lemma extract_attribute_shape_witness :
  @extract_ldap_attributes sample_runtime (t "dump.ldif") example_world
    = (inl {[ t "cn"; t "userPassword"; t "legacyFlag" ]}, example_world)
  ∧ t "cn" ∈ ({[ t "cn"; t "userPassword"; t "legacyFlag" ]} : gset text)
  ∧ t "cn" ≠ [] ∧ (colon ∉ t "cn") ∧ (newline ∉ t "cn") ∧ (13 ∉ t "cn")
  ∧ (∀ c, head (t "cn") = Some c → py_isspace c = false)
  ∧ (∀ c, last (t "cn") = Some c → py_isspace c = false).
Proof.
  split; [vm_compute; reflexivity|].
  split; [apply (bool_decide_unpack _); vm_compute; reflexivity|].
  apply (@extract_attribute_shape sample_runtime (t "dump.ldif") example_world example_world
           {[ t "cn"; t "userPassword"; t "legacyFlag" ]} (t "cn"));
    [vm_compute; reflexivity|apply (bool_decide_unpack _); vm_compute; reflexivity].
Defined.

Lemma extract_ldap_attributes_concat_witness :
  fs parts_world !! t "a.ldif" = Some (File part1_file)
  ∧ fs parts_world !! t "b.ldif" = Some (File part2_file)
  ∧ fs parts_world !! t "ab.ldif" = Some (File joined_file)
  ∧ last (data part1_file) = Some newline
  ∧ data joined_file = data part1_file ++ data part2_file
  ∧ ∃ attributes1 attributes2,
      @extract_ldap_attributes sample_runtime (t "a.ldif") parts_world
        = (inl attributes1, parts_world)
      ∧ @extract_ldap_attributes sample_runtime (t "b.ldif") parts_world
        = (inl attributes2, parts_world)
      ∧ @extract_ldap_attributes sample_runtime (t "ab.ldif") parts_world
        = (inl (attributes1 ∪ attributes2), parts_world).
Proof.
  split_and!; [reflexivity..|].
  apply (@extract_ldap_attributes_concat sample_runtime (t "ab.ldif") (t "a.ldif") (t "b.ldif")
           joined_file part1_file part2_file parts_world); reflexivity.
Defined.


Lemma extract_read_fault_witness :
  fs faulty_world !! t "dump.ldif" = Some (File faulty_file)
  ∧ can_read faulty_file = true ∧ read_fault faulty_file = Some 2%nat
  ∧ @extract_ldap_attributes sample_runtime (t "dump.ldif") faulty_world
    = (inl ∅, emit (Printed (@read_error_msg sample_runtime (OSError EIO None))) faulty_world).
Proof.
  split_and!; [reflexivity|reflexivity|reflexivity|].
  apply (@extract_read_fault sample_runtime (t "dump.ldif") faulty_file 2%nat faulty_world);
    reflexivity.
Defined.


Lemma save_raw_output_read_back_witness :
  @extract_ldap_attributes sample_runtime (t "dump.ldif") example_world
    = (inl {[ t "cn"; t "userPassword"; t "legacyFlag" ]}, example_world)
  ∧ fst (save_raw_output (t "out.txt")
           {[ t "cn"; t "userPassword"; t "legacyFlag" ]} [] example_world) = inl tt
  ∧ ∃ f lines,
      fs (snd (save_raw_output (t "out.txt")
                 {[ t "cn"; t "userPassword"; t "legacyFlag" ]} [] example_world))
        !! t "out.txt" = Some (File f)
      ∧ file_lines f = map (λ a, a ++ [newline]) lines
      ∧ StronglySorted py_str_lt lines
      ∧ (∀ a, a ∈ lines ↔ a ∈ ({[ t "cn"; t "userPassword"; t "legacyFlag" ]} : gset text)).
Proof.
  split; [vm_compute; reflexivity|]. split; [vm_compute; reflexivity|].
  apply (@save_raw_output_read_back sample_runtime (t "dump.ldif") (t "out.txt")
           example_world example_world example_world
           {[ t "cn"; t "userPassword"; t "legacyFlag" ]} []);
    vm_compute; reflexivity.
Defined.

